(** * map2: a two-dimensional map guarded by RTX mutexes

    Shallow embedding of [map2.c] and of the macros of [map2.h], and the
    properties of the access protocol: key selection, time-bounded
    acquisition, the read-only and read-write modes and the release
    discipline.

    Conventions.
    - A C [int] is a [Z]; arithmetic on [int] wraps to 32 bits ([to_int]).
    - A pointer is the [uint32_t] the code casts it to ([map2_ptr]); [NULL]
      is [0].  A pointer to a map is an [option map2_t], [None] being [NULL].
    - The functions of the RTOS ([os_mut_init], [os_mut_wait],
      [os_mut_release]) and [memcpy] act on an explicit [world]: the memory,
      the depth at which the calling task owns each mutex, and the trace of
      the calls made so far. *)

From Stdlib Require Import ZArith List Bool Lia.
From Stdlib Require Strings.Byte.
Import ListNotations.
Local Open Scope Z_scope.

(** ** Machine integers *)

Module Int32.

Definition modulus : Z := 2 ^ 32.
Definition INT_MAX : Z := 2 ^ 31 - 1.
Definition INT_MIN : Z := - 2 ^ 31.

(** Value of a [uint32_t] holding [z]. *)
Definition to_uint32 (z : Z) : Z := z mod modulus.

(** Value of an [int] holding [z] (two's complement). *)
Definition to_int (z : Z) : Z := (z + 2 ^ 31) mod modulus - 2 ^ 31.

Definition add (a b : Z) : Z := to_int (a + b).
Definition mul (a b : Z) : Z := to_int (a * b).

Definition in_int (z : Z) : Prop := INT_MIN <= z <= INT_MAX.

End Int32.

(** ** Data model ([map2.h]) *)

Definition ptr := Z.
Definition NULL : ptr := 0.

Record map2_t : Type := mk_map2 {
  data : ptr;        (* pointer to the grid *)
  rows : Z;
  columns : Z;
  data_size : Z;     (* size of the whole grid, in bytes *)
  field_size : Z;    (* size of one item, in bytes *)
  mut : ptr;         (* pointer to the array of mutexes *)
  keys : Z           (* number of access keys *)
}.

Inductive map2_operation_t : Type :=
| MAP2_OP_READONLY
| MAP2_OP_READWRITE.

Definition op_code (op : map2_operation_t) : Z :=
  match op with MAP2_OP_READONLY => 0 | MAP2_OP_READWRITE => 1 end.

Definition is_readonly (op : map2_operation_t) : bool :=
  match op with MAP2_OP_READONLY => true | MAP2_OP_READWRITE => false end.

Definition MAP2_NKEYS_1 : Z := 1.
Definition MAP2_NKEYS_2 : Z := 2.
Definition MAP2_NKEYS_3 : Z := 3.

(** The board constants [SLOT_CNT], [SLOT_CH] and [UART_INSTANCES] are
    defined outside [map2.c] and [map2.h]; they are parameters here. *)
Record board_config : Type := mk_board {
  SLOT_CNT : Z;
  SLOT_CH : Z;
  UART_INSTANCES : Z
}.

(** ** The world the code runs in *)

(** Result of [os_mut_wait].  [RTL.h] is not part of the sources; the code
    only separates [OS_R_TMO] from every other result. *)
Inductive OS_RESULT : Type :=
| OS_R_TMO     (* the timeout expired, the mutex was not acquired *)
| OS_R_MUT     (* the task waited and now owns the mutex *)
| OS_R_OK.     (* the mutex was free, the task owns it *)

Definition is_tmo (r : OS_RESULT) : bool :=
  match r with OS_R_TMO => true | _ => false end.

(** Messages of the [dbgW] calls, with their arguments (the task number
    [os_tsk_self()] is left out). *)
Inductive dbg_msg : Type :=
| Dbg_Wait (row column key tout op : Z)
| Dbg_Timeout (row column key tout : Z)
| Dbg_Take (row column key : Z) (null_ptr : bool)
| Dbg_Drop (row column key : Z).

Inductive event : Type :=
| Ev_dbgW (msg : dbg_msg)
| Ev_os_mut_init (mutex : ptr)
| Ev_os_mut_wait (mutex : ptr) (timeout : Z) (r : OS_RESULT)
| Ev_os_mut_release (mutex : ptr)
| Ev_memcpy (dst src : ptr) (n : Z).

Record world : Type := mk_world {
  mem : ptr -> Byte.byte;
  (* how many times the calling task owns each mutex (RTX mutexes nest) *)
  owned : ptr -> nat;
  (* what the kernel answers to [os_mut_wait mutex timeout], given the
     calls made so far: it depends on the other tasks *)
  kernel : list event -> ptr -> Z -> OS_RESULT;
  trace : list event
}.

Definition log (e : event) (w : world) : world :=
  mk_world (mem w) (owned w) (kernel w) (trace w ++ [e]).

Definition set_owned (mutex : ptr) (n : nat) (w : world) : world :=
  mk_world (mem w)
           (fun a => if a =? mutex then n else owned w a)
           (kernel w) (trace w).

Definition dbgW (msg : dbg_msg) (w : world) : world := log (Ev_dbgW msg) w.

Definition os_mut_init (mutex : ptr) (w : world) : world :=
  log (Ev_os_mut_init mutex) (set_owned mutex 0%nat w).

(** [os_mut_wait]: on [OS_R_TMO] the mutex is left as it was, otherwise the
    calling task owns it once more. *)
Definition os_mut_wait (mutex : ptr) (timeout : Z) (w : world)
  : OS_RESULT * world :=
  let r := kernel w (trace w) mutex timeout in
  let w1 := if is_tmo r then w
            else set_owned mutex (S (owned w mutex)) w in
  (r, log (Ev_os_mut_wait mutex timeout r) w1).

(** [os_mut_release]: gives back one level of ownership; releasing a mutex
    the task does not own changes nothing. *)
Definition os_mut_release (mutex : ptr) (w : world) : world :=
  let w1 := match owned w mutex with
            | O => w
            | S n => set_owned mutex n w
            end in
  log (Ev_os_mut_release mutex) w1.

(** [memcpy dst src n] on the memory: the [n] bytes from [src] are found
    from [dst]. *)
Definition copy_bytes (m : ptr -> Byte.byte) (dst src : ptr) (n : Z)
  : ptr -> Byte.byte :=
  fun a => if (dst <=? a) && (a <? dst + n) then m (src + (a - dst)) else m a.

Definition memcpy (dst src : ptr) (n : Z) (w : world) : world :=
  log (Ev_memcpy dst src n)
      (mk_world (copy_bytes (mem w) dst src n) (owned w) (kernel w) (trace w)).

(** A store of one byte by the caller or by another task. *)
Definition store_byte (a : ptr) (v : Byte.byte) (w : world) : world :=
  mk_world (fun x => if x =? a then v else mem w x)
           (owned w) (kernel w) (trace w).

(** A sequence of such stores, the first of the list first. *)
Definition stores (l : list (ptr * Byte.byte)) (w : world) : world :=
  fold_left (fun w s => store_byte (fst s) (snd s) w) l w.

(** ** [map2.c] *)

(** [map2_ptr(var, pos, type)] is [(type* )((uint32_t)var + pos)]. *)
Definition map2_ptr (var : ptr) (pos : Z) : ptr := Int32.to_uint32 (var + pos).

(** [map2_pos(m, row, column)] is
    [((column + (m->columns * row)) * m->field_size)], on [int]. *)
Definition map2_pos (m : map2_t) (row column : Z) : Z :=
  Int32.mul (Int32.add column (Int32.mul (columns m) row)) (field_size m).

Section Board.

Variable cfg : board_config.

Definition map2_key (m : option map2_t) (row : Z) : Z :=
  match m with
  | None => 0
  | Some m =>
    if (row <? 0) || (row >=? rows m) then 0
    else if keys m =? MAP2_NKEYS_1 then 0
    else if (keys m =? MAP2_NKEYS_3)
            && (row >=? Int32.mul (SLOT_CNT cfg) (SLOT_CH cfg)) then 2
    else if Z.rem row (UART_INSTANCES cfg) =? 0 then 0 else 1
  end.

End Board.

(** [for (int k = 0; k < m->keys; k++) os_mut_init(...)], [n] mutexes being
    left from [k] on. *)
Fixpoint init_from (m : map2_t) (k : Z) (n : nat) (w : world) : world :=
  match n with
  | O => w
  | S n' => init_from m (k + 1) n' (os_mut_init (map2_ptr (mut m) k) w)
  end.

Definition __map2_init (m : option map2_t) (w : world) : world :=
  match m with
  | None => w
  | Some m => init_from m 0 (Z.to_nat (keys m)) w
  end.

(** The test on [row] and [column] shared by [__map2_drop] and
    [__map2_take], and the test on [key]. *)
Definition bad_cell (m : map2_t) (row column : Z) : bool :=
  (row <? 0) || (row >=? rows m) || (column <? 0) || (column >=? columns m).

Definition bad_key (m : map2_t) (key : Z) : bool :=
  (key <? 0) || (key >=? keys m).

Definition __map2_drop (m : option map2_t) (row column key : Z) (w : world)
  : world :=
  match m with
  | None => w
  | Some m =>
    if bad_cell m row column then w
    else if bad_key m key then w
    else
      let w := dbgW (Dbg_Drop row column key) w in
      os_mut_release (map2_ptr (mut m) key) w
  end.

(** [if (tout >= 0xFFFF) tout -= 1;] on [uint32_t]. *)
Definition adjust_tout (tout : Z) : Z :=
  if tout >=? 65535 then Int32.to_uint32 (tout - 1) else tout.

Definition __map2_take (m : option map2_t) (row column key : Z) (dst : ptr)
           (tout : Z) (op : map2_operation_t) (w : world) : ptr * world :=
  match m with
  | None => (NULL, w)
  | Some m0 =>
    if bad_cell m0 row column then (NULL, w)
    else if bad_key m0 key then (NULL, w)
    else
      let tout := adjust_tout tout in
      let w := dbgW (Dbg_Wait row column key tout (op_code op)) w in
      let '(r, w) := os_mut_wait (map2_ptr (mut m0) key) tout w in
      if is_tmo r then
        (NULL, dbgW (Dbg_Timeout row column key tout) w)
      else
        let src := map2_ptr (data m0) (map2_pos m0 row column) in
        let w := dbgW (Dbg_Take row column key (src =? NULL)) w in
        let '(dst, w) :=
          if is_readonly op then
            if negb (dst =? NULL) && negb (src =? NULL)
            then (dst, memcpy dst src (Int32.to_uint32 (field_size m0)) w)
            else (dst, w)
          else (src, w) in
        let w := if (dst =? NULL) || is_readonly op
                 then __map2_drop m row column key w
                 else w in
        (dst, w)
  end.

(** ** [map2.h] *)

(** [MAP2(data_type, mapname, nrows, ncolumns, nkeys)]: [sz] is
    [sizeof(data_type)], [grid] and [mutexes] are the addresses of the two
    static arrays the macro declares. *)
Definition MAP2 (sz : Z) (grid mutexes : ptr) (nrows ncolumns nkeys : Z)
  : map2_t :=
  {| data := grid;
     rows := nrows;
     columns := ncolumns;
     data_size := Int32.to_int (nrows * ncolumns * sz);
     field_size := Int32.to_int sz;
     mut := mutexes;
     keys := nkeys |}.

(** The item [i] steps after the first one in [map2_unsafe_foreach]
    ([item++] on a [type*], [sz] being [sizeof(type)]). *)
Definition nth_item (m : map2_t) (sz : Z) (i : Z) : ptr := data m + i * sz.

(** [item - (type* )(m)->data]: a difference of pointers counts items. *)
Definition item_index (m : map2_t) (sz : Z) (item : ptr) : Z :=
  Z.quot (item - data m) sz.

Definition map2_item_row (m : map2_t) (sz : Z) (item : ptr) : Z :=
  Z.quot (item_index m sz item) (columns m).

Definition map2_item_column (m : map2_t) (sz : Z) (item : ptr) : Z :=
  Z.rem (item_index m sz item) (columns m).

(** [map2_readonly_trycatch]: [dst] is the address of the caller's variable,
    [fnc] and [err] the two blocks. *)
Definition map2_readonly_trycatch (m : option map2_t) (row column key : Z)
           (dst : ptr) (tout : Z) (fnc err : world -> world) (w : world)
  : world :=
  let '(p, w) := __map2_take m row column key dst tout MAP2_OP_READONLY w in
  if negb (p =? NULL) then fnc w else err w.

(** [map2_readwrite_trycatch]: the block [fnc] works through the pointer
    [dst] the macro has just assigned. *)
Definition map2_readwrite_trycatch (m : option map2_t) (row column key : Z)
           (dst : ptr) (tout : Z) (fnc : ptr -> world -> world)
           (err : world -> world) (w : world) : world :=
  let '(p, w) := __map2_take m row column key dst tout MAP2_OP_READWRITE w in
  if negb (p =? NULL) then __map2_drop m row column key (fnc p w) else err w.

(** ** Vocabulary of the statements *)

Definition valid_cell (m : map2_t) (row column : Z) : Prop :=
  0 <= row < rows m /\ 0 <= column < columns m.

Definition valid_key (m : map2_t) (key : Z) : Prop := 0 <= key < keys m.

(** A request that [__map2_take] must refuse: no map, or a row, a column or
    a key out of range. *)
Definition invalid_request (m : option map2_t) (row column key : Z) : Prop :=
  match m with
  | None => True
  | Some m0 =>
    row < 0 \/ rows m0 <= row \/ column < 0 \/ columns m0 <= column \/
    key < 0 \/ keys m0 <= key
  end.

(** The board the notes of [map2_key] ask for: two UART instances, and a
    product [SLOT_CNT * SLOT_CH] that is an [int]. *)
Definition board_ok (cfg : board_config) : Prop :=
  UART_INSTANCES cfg = 2 /\ Int32.in_int (SLOT_CNT cfg * SLOT_CH cfg).

(** The grid of [m] is an array of [rows * columns] items of at least one
    byte whose size is an [int], as [MAP2] declares it. *)
Definition grid_fits (m : map2_t) : Prop :=
  1 <= field_size m /\ rows m * columns m * field_size m <= Int32.INT_MAX.

(** The mutex of a key and the address of a cell, as [__map2_take]
    computes them. *)
Definition key_mutex (m : map2_t) (key : Z) : ptr := map2_ptr (mut m) key.

Definition cell_ptr (m : map2_t) (row column : Z) : ptr :=
  map2_ptr (data m) (map2_pos m row column).

(** The world in which [__map2_take] calls [os_mut_wait], and the answer of
    the kernel to that call. *)
Definition world_at_wait (row column key tout : Z) (op : map2_operation_t)
           (w : world) : world :=
  dbgW (Dbg_Wait row column key (adjust_tout tout) (op_code op)) w.

Definition wait_result (m : map2_t) (row column key tout : Z)
           (op : map2_operation_t) (w : world) : OS_RESULT :=
  fst (os_mut_wait (key_mutex m key) (adjust_tout tout)
                   (world_at_wait row column key tout op w)).

(** The world once the mutex is owned and the cell located, before the copy
    or the hand-over of the pointer. *)
Definition world_taken (m : map2_t) (row column key tout : Z)
           (op : map2_operation_t) (w : world) : world :=
  dbgW (Dbg_Take row column key (cell_ptr m row column =? NULL))
       (snd (os_mut_wait (key_mutex m key) (adjust_tout tout)
                         (world_at_wait row column key tout op w))).

(** What [__map2_drop] adds to the trace on an accepted request. *)
Definition drop_events (m : map2_t) (row column key : Z) : list event :=
  [Ev_dbgW (Dbg_Drop row column key); Ev_os_mut_release (key_mutex m key)].

(** What [__map2_take] adds to the trace on an accepted request. *)
Definition take_events (m : map2_t) (row column key : Z) (dst : ptr)
           (tout : Z) (op : map2_operation_t) (w : world) : list event :=
  let t := adjust_tout tout in
  let r := wait_result m row column key tout op w in
  let src := cell_ptr m row column in
  [Ev_dbgW (Dbg_Wait row column key t (op_code op));
   Ev_os_mut_wait (key_mutex m key) t r] ++
  if is_tmo r then [Ev_dbgW (Dbg_Timeout row column key t)]
  else
    [Ev_dbgW (Dbg_Take row column key (src =? NULL))] ++
    match op with
    | MAP2_OP_READONLY =>
      (if negb (dst =? NULL) && negb (src =? NULL)
       then [Ev_memcpy dst src (Int32.to_uint32 (field_size m))]
       else []) ++ drop_events m row column key
    | MAP2_OP_READWRITE =>
      if src =? NULL then drop_events m row column key else []
    end.

(** The timeouts handed to [os_mut_wait] in a trace. *)
Fixpoint forwarded (tr : list event) : list Z :=
  match tr with
  | [] => []
  | Ev_os_mut_wait _ t _ :: tr' => t :: forwarded tr'
  | _ :: tr' => forwarded tr'
  end.

(** The copies made in a trace. *)
Fixpoint copies (tr : list event) : list (ptr * ptr * Z) :=
  match tr with
  | [] => []
  | Ev_memcpy d s n :: tr' => (d, s, n) :: copies tr'
  | _ :: tr' => copies tr'
  end.

(** The mutexes released in a trace. *)
Fixpoint releases (tr : list event) : list ptr :=
  match tr with
  | [] => []
  | Ev_os_mut_release k :: tr' => k :: releases tr'
  | _ :: tr' => releases tr'
  end.

(** The byte ranges of the grid, of one cell and of a buffer of one item. *)
Definition in_range (base len a : Z) : Prop := base <= a < base + len.

Definition in_grid (m : map2_t) (a : ptr) : Prop :=
  in_range (data m) (data_size m) a.

(** ** Concrete boards, maps and worlds *)

Definition board_ex : board_config :=
  {| SLOT_CNT := 4; SLOT_CH := 2; UART_INSTANCES := 2 |}.

(** Four rows, two columns, items of eight bytes, two keys. *)
Definition map_ex : map2_t := MAP2 8 4096 8192 4 2 2.

(** Twelve rows and three keys: rows 8 to 11 are expansion rows on
    [board_ex]. *)
Definition map_ex3 : map2_t := MAP2 8 4096 8192 12 2 3.

(** A hand-made descriptor with five keys. *)
Definition map_keys5 : map2_t :=
  {| data := 4096; rows := 2; columns := 1; data_size := 16;
     field_size := 8; mut := 8192; keys := 5 |}.

(** A hand-made descriptor without a grid. *)
Definition map_nodata : map2_t :=
  {| data := NULL; rows := 1; columns := 1; data_size := 8;
     field_size := 8; mut := 8192; keys := 1 |}.

Definition kernel_free : list event -> ptr -> Z -> OS_RESULT :=
  fun _ _ _ => OS_R_OK.

Definition kernel_busy : list event -> ptr -> Z -> OS_RESULT :=
  fun _ _ _ => OS_R_TMO.

(** Memory where the byte at [a] is [a mod 256]. *)
Definition mem_ex : ptr -> Byte.byte :=
  fun a => match Byte.of_N (Z.to_N (a mod 256)) with
           | Some b => b
           | None => Byte.x00
           end.

Definition world_free : world :=
  {| mem := mem_ex; owned := fun _ => O; kernel := kernel_free; trace := [] |}.

Definition world_busy : world :=
  {| mem := mem_ex; owned := fun _ => O; kernel := kernel_busy; trace := [] |}.

(** A success block that writes one byte through the pointer it is given. *)
Definition fnc_ex (p : ptr) (w : world) : world := store_byte p Byte.xff w.

(** The caller's buffer in the examples. *)
Definition buf_ex : ptr := 20480.

(** ** The rest of [map2.h] *)

(** [map2_init(m, fnc)] is [__map2_init(m); fnc;]. *)
Definition map2_init {A : Type} (m : option map2_t) (fnc : world -> A)
           (w : world) : A :=
  fnc (__map2_init m w).

(** [map2_readonly_try] and [map2_readwrite_try]: the failure block is
    empty. *)
Definition map2_readonly_try (m : option map2_t) (row column key : Z)
           (dst : ptr) (tout : Z) (fnc : world -> world) (w : world)
  : world :=
  map2_readonly_trycatch m row column key dst tout fnc (fun w => w) w.

Definition map2_readwrite_try (m : option map2_t) (row column key : Z)
           (dst : ptr) (tout : Z) (fnc : ptr -> world -> world) (w : world)
  : world :=
  map2_readwrite_trycatch m row column key dst tout fnc (fun w => w) w.

(** The loop of [map2_unsafe_foreach]:
    [for (item = ...; item != NULL && item < stop; item++) body], [sz] being
    [sizeof(type)].  [None] when the fuel runs out before the loop ends. *)
Fixpoint foreach_from (fuel : nat) (stop sz item : ptr)
         (body : ptr -> world -> world) (w : world) : option world :=
  match fuel with
  | O => None
  | S fuel' =>
    if negb (item =? NULL) && (item <? stop)
    then foreach_from fuel' stop sz (Int32.to_uint32 (item + sz)) body
                      (body item w)
    else Some w
  end.

(** [map2_unsafe_foreach(m, item, type)]: from [(type* )(m)->data] up to
    [(type* )((uint32_t)(m)->data + (m)->data_size)]. *)
Definition map2_unsafe_foreach (fuel : nat) (m : map2_t) (sz : Z)
           (body : ptr -> world -> world) (w : world) : option world :=
  foreach_from fuel (Int32.to_uint32 (data m + data_size m)) sz (data m)
               body w.

(** The [count] items from the item [first] on, and a body run on each of the
    items of a list in turn. *)
Definition items_from (m : map2_t) (sz : Z) (first count : nat) : list ptr :=
  map (fun i => nth_item m sz (Z.of_nat i)) (seq first count).

Definition run_body (body : ptr -> world -> world) (l : list ptr) (w : world)
  : world :=
  fold_left (fun w p => body p w) l w.

(** What [__map2_init] adds to the trace: one [os_mut_init] for each of the
    keys [first], [first + 1], ... *)
Definition init_events (m : map2_t) (first count : nat) : list event :=
  map (fun k => Ev_os_mut_init (key_mutex m (Z.of_nat k))) (seq first count).

(** The number of cells of a grid. *)
Definition cell_count (m : map2_t) : nat := Z.to_nat (rows m * columns m).

(** A map whose grid is the array [MAP2] declares, away from both ends of
    the address space. *)
Definition grid_placed (m : map2_t) : Prop :=
  grid_fits m /\
  (1 <= rows m /\ 1 <= columns m) /\
  data_size m = rows m * columns m * field_size m /\
  0 < data m /\
  data m + data_size m < Int32.modulus.

(** The bytes of a cell. *)
Definition in_cell (m : map2_t) (row column : Z) (a : ptr) : Prop :=
  in_range (cell_ptr m row column) (field_size m) a.

(** A block that stores [v] at the offset [j] of the item it is given. *)
Definition set_byte (j : Z) (v : Byte.byte) (p : ptr) (w : world) : world :=
  store_byte (p + j) v w.

(** * Properties *)

(** ** Machine integers *)

Lemma to_int_id z : Int32.in_int z -> Int32.to_int z = z.
Proof.
  unfold Int32.in_int, Int32.INT_MIN, Int32.INT_MAX, Int32.to_int,
    Int32.modulus.
  intros H. rewrite Z.mod_small; lia.
Qed.

Lemma to_uint32_id z : 0 <= z < Int32.modulus -> Int32.to_uint32 z = z.
Proof. intros H. unfold Int32.to_uint32. now apply Z.mod_small. Qed.

Lemma to_uint32_range z : 0 <= Int32.to_uint32 z < Int32.modulus.
Proof.
  unfold Int32.to_uint32. apply Z.mod_pos_bound. unfold Int32.modulus. lia.
Qed.

(** ** The tests on the arguments *)

Lemma bad_cell_false m row column :
  bad_cell m row column = false <-> valid_cell m row column.
Proof. unfold bad_cell, valid_cell. lia. Qed.

Lemma bad_key_false m key : bad_key m key = false <-> valid_key m key.
Proof. unfold bad_key, valid_key. lia. Qed.

Lemma invalid_request_some m row column key :
  invalid_request (Some m) row column key ->
  bad_cell m row column = true \/ bad_key m key = true.
Proof. unfold invalid_request, bad_cell, bad_key. lia. Qed.

(** ** Key selection *)

Lemma rem_2_nonneg row : 0 <= row -> Z.rem row 2 = row mod 2.
Proof. intros H. apply Z.rem_mod_nonneg; lia. Qed.

(** The last branch of [map2_key] on a board with two UART instances. *)
Lemma even_odd_rule row :
  0 <= row -> (if Z.rem row 2 =? 0 then 0 else 1) = row mod 2.
Proof.
  intros H. rewrite rem_2_nonneg by assumption.
  pose proof (Z.mod_pos_bound row 2 ltac:(lia)) as B.
  destruct (Z.eqb_spec (row mod 2) 0); lia.
Qed.

Lemma map2_key_unfold cfg m row :
  0 <= row < rows m ->
  map2_key cfg (Some m) row =
  if keys m =? 1 then 0
  else if (keys m =? 3) && (row >=? Int32.mul (SLOT_CNT cfg) (SLOT_CH cfg))
       then 2
  else if Z.rem row (UART_INSTANCES cfg) =? 0 then 0 else 1.
Proof.
  intros H. unfold map2_key, MAP2_NKEYS_1, MAP2_NKEYS_3.
  replace ((row <? 0) || (row >=? rows m)) with false by lia.
  reflexivity.
Qed.

(** C4. For a valid row, [map2_key] gives 0 on a map with one key, [row % 2]
    on a map with two keys and, on a map with three keys, 2 from the row
    [SLOT_CNT * SLOT_CH] on and [row % 2] below it.  The board has two UART
    instances, as the notes of [map2_key] require. *)
Theorem map2_key_valid_row cfg m row :
  board_ok cfg ->
  0 <= row < rows m ->
  (keys m = 1 -> map2_key cfg (Some m) row = 0) /\
  (keys m = 2 -> map2_key cfg (Some m) row = row mod 2) /\
  (keys m = 3 ->
     (SLOT_CNT cfg * SLOT_CH cfg <= row -> map2_key cfg (Some m) row = 2) /\
     (row < SLOT_CNT cfg * SLOT_CH cfg ->
        map2_key cfg (Some m) row = row mod 2)).
Proof.
  intros [HU HT] Hrow.
  rewrite (map2_key_unfold cfg m row Hrow), HU.
  unfold Int32.mul. rewrite (to_int_id _ HT).
  split; [| split]; intros Hk; rewrite Hk; simpl.
  - reflexivity.
  - apply even_odd_rule; lia.
  - split; intros Hcmp.
    + replace (row >=? SLOT_CNT cfg * SLOT_CH cfg) with true by lia.
      reflexivity.
    + replace (row >=? SLOT_CNT cfg * SLOT_CH cfg) with false by lia.
      apply even_odd_rule; lia.
Qed.

Lemma map2_key_valid_row_witness :
  map2_key board_ex (Some map_ex3) 5 = 5 mod 2 /\
  map2_key board_ex (Some map_ex3) 9 = 2 /\
  map2_key board_ex (Some map_ex) 3 = 3 mod 2.
Proof.
  assert (Hb : board_ok board_ex).
  { unfold board_ok, Int32.in_int. vm_compute. intuition discriminate. }
  assert (H5 : 0 <= 5 < rows map_ex3) by (vm_compute; intuition discriminate).
  assert (H9 : 0 <= 9 < rows map_ex3) by (vm_compute; intuition discriminate).
  assert (H3 : 0 <= 3 < rows map_ex) by (vm_compute; intuition discriminate).
  destruct (map2_key_valid_row board_ex map_ex3 5 Hb H5) as (_ & _ & K5).
  destruct (map2_key_valid_row board_ex map_ex3 9 Hb H9) as (_ & _ & K9).
  destruct (map2_key_valid_row board_ex map_ex 3 Hb H3) as (_ & K3 & _).
  split; [| split].
  - apply K5; [reflexivity | vm_compute; reflexivity].
  - apply K9; [reflexivity | vm_compute; discriminate].
  - apply K3. reflexivity.
Defined.

(** C5 (as amended). For an invalid row (negative, or [>= rows]) and for no
    map, [map2_key] gives 0.  The number of keys is not checked: on a valid
    row a number of keys that is none of 1, 2 and 3 is treated as 2 keys are,
    by the even/odd rule. *)
Theorem map2_key_fallback cfg :
  (forall row, map2_key cfg None row = 0) /\
  (forall m row, row < 0 \/ rows m <= row -> map2_key cfg (Some m) row = 0) /\
  (forall m row,
     0 <= row < rows m -> keys m <> 1 -> keys m <> 2 -> keys m <> 3 ->
     map2_key cfg (Some m) row =
     if Z.rem row (UART_INSTANCES cfg) =? 0 then 0 else 1).
Proof.
  split; [reflexivity | split].
  - intros m row H. unfold map2_key.
    replace ((row <? 0) || (row >=? rows m)) with true by lia. reflexivity.
  - intros m row Hrow H1 H2 H3. rewrite (map2_key_unfold cfg m row Hrow).
    replace (keys m =? 1) with false by lia.
    replace (keys m =? 3) with false by lia. reflexivity.
Qed.

(** C5, as stated, fails: the descriptor [map_keys5] has five keys, and its
    valid row 1 is given key 1, not 0. *)
Lemma map2_key_invalid_keys_not_zero :
  (keys map_keys5 <> 1 /\ keys map_keys5 <> 2 /\ keys map_keys5 <> 3) /\
  map2_key board_ex (Some map_keys5) 1 = 1 /\
  map2_key board_ex (Some map_keys5) 1 <> 0.
Proof. vm_compute. repeat split; discriminate. Qed.

(** ** Traces *)

Lemma forwarded_app l1 l2 : forwarded (l1 ++ l2) = forwarded l1 ++ forwarded l2.
Proof.
  induction l1 as [|e l1 IH]; simpl; [reflexivity|].
  destruct e; simpl; rewrite IH; reflexivity.
Qed.

Lemma copies_app l1 l2 : copies (l1 ++ l2) = copies l1 ++ copies l2.
Proof.
  induction l1 as [|e l1 IH]; simpl; [reflexivity|].
  destruct e; simpl; rewrite IH; reflexivity.
Qed.

Lemma releases_app l1 l2 : releases (l1 ++ l2) = releases l1 ++ releases l2.
Proof.
  induction l1 as [|e l1 IH]; simpl; [reflexivity|].
  destruct e; simpl; rewrite IH; reflexivity.
Qed.

(** ** [__map2_drop] and [__map2_take] on a valid request *)

Lemma drop_valid m row column key w :
  valid_cell m row column -> valid_key m key ->
  __map2_drop (Some m) row column key w =
  os_mut_release (key_mutex m key) (dbgW (Dbg_Drop row column key) w).
Proof.
  intros Hc Hk. unfold __map2_drop.
  apply bad_cell_false in Hc. apply bad_key_false in Hk.
  rewrite Hc, Hk. reflexivity.
Qed.

(** The three ways out of [__map2_take] once the arguments are accepted:
    the timeout, the read-only access and the read-write access. *)
Lemma take_valid m row column key dst tout op w :
  valid_cell m row column -> valid_key m key ->
  __map2_take (Some m) row column key dst tout op w =
  let src := cell_ptr m row column in
  let w2 := world_taken m row column key tout op w in
  if is_tmo (wait_result m row column key tout op w) then
    (NULL,
     dbgW (Dbg_Timeout row column key (adjust_tout tout))
          (snd (os_mut_wait (key_mutex m key) (adjust_tout tout)
                            (world_at_wait row column key tout op w))))
  else
    match op with
    | MAP2_OP_READONLY =>
      (dst,
       __map2_drop (Some m) row column key
         (if negb (dst =? NULL) && negb (src =? NULL)
          then memcpy dst src (Int32.to_uint32 (field_size m)) w2
          else w2))
    | MAP2_OP_READWRITE =>
      (src,
       if src =? NULL then __map2_drop (Some m) row column key w2 else w2)
    end.
Proof.
  intros Hc Hk. unfold __map2_take.
  apply bad_cell_false in Hc. apply bad_key_false in Hk.
  rewrite Hc, Hk.
  unfold wait_result, world_taken, world_at_wait, cell_ptr, key_mutex.
  destruct (os_mut_wait _ _ _) as [r w1] eqn:E. simpl fst. simpl snd.
  destruct (is_tmo r); [reflexivity|].
  destruct op; simpl is_readonly; cbv iota.
  - destruct (negb (dst =? NULL) && negb (_ =? NULL)); simpl;
      rewrite Bool.orb_true_r; reflexivity.
  - rewrite Bool.orb_false_r. destruct (_ =? NULL); reflexivity.
Qed.

(** Acquiring then releasing a mutex restores the ownership of every
    mutex. *)
Lemma owned_release_after_acquire k n w a :
  owned w k = S n ->
  owned (os_mut_release k w) a = if a =? k then n else owned w a.
Proof.
  intros H. unfold os_mut_release. rewrite H. reflexivity.
Qed.

Lemma owned_world_taken m row column key tout op w a :
  is_tmo (wait_result m row column key tout op w) = false ->
  owned (world_taken m row column key tout op w) a =
  if a =? key_mutex m key then S (owned w (key_mutex m key)) else owned w a.
Proof.
  unfold wait_result, world_taken, os_mut_wait. simpl fst. simpl snd.
  intros H. rewrite H. reflexivity.
Qed.

Lemma trace_world_taken m row column key tout op w :
  trace (world_taken m row column key tout op w) =
  trace w ++
  [Ev_dbgW (Dbg_Wait row column key (adjust_tout tout) (op_code op));
   Ev_os_mut_wait (key_mutex m key) (adjust_tout tout)
                  (wait_result m row column key tout op w);
   Ev_dbgW (Dbg_Take row column key (cell_ptr m row column =? NULL))].
Proof.
  unfold wait_result, world_taken, os_mut_wait. simpl fst. simpl snd.
  destruct (is_tmo _); simpl; rewrite <- !app_assoc; reflexivity.
Qed.

Lemma mem_world_taken m row column key tout op w :
  mem (world_taken m row column key tout op w) = mem w.
Proof.
  unfold wait_result, world_taken, os_mut_wait. simpl fst. simpl snd.
  destruct (is_tmo _); reflexivity.
Qed.

Lemma trace_memcpy dst src n w :
  trace (memcpy dst src n w) = trace w ++ [Ev_memcpy dst src n].
Proof. reflexivity. Qed.

Lemma trace_release k w :
  trace (os_mut_release k w) = trace w ++ [Ev_os_mut_release k].
Proof. unfold os_mut_release. destruct (owned w k); reflexivity. Qed.

Lemma mem_release k w : mem (os_mut_release k w) = mem w.
Proof. unfold os_mut_release. destruct (owned w k); reflexivity. Qed.

Lemma trace_drop m row column key w :
  valid_cell m row column -> valid_key m key ->
  trace (__map2_drop (Some m) row column key w)
  = trace w ++ drop_events m row column key.
Proof.
  intros Hc Hk. rewrite (drop_valid _ _ _ _ _ Hc Hk), trace_release.
  simpl. rewrite <- app_assoc. reflexivity.
Qed.

Lemma mem_drop m row column key w :
  mem (__map2_drop m row column key w) = mem w.
Proof.
  unfold __map2_drop. destruct m as [m|]; [|reflexivity].
  destruct (bad_cell m row column); [reflexivity|].
  destruct (bad_key m key); [reflexivity|].
  now rewrite mem_release.
Qed.

Lemma owned_drop_taken m row column key tout op w w2 a :
  valid_cell m row column -> valid_key m key ->
  is_tmo (wait_result m row column key tout op w) = false ->
  (forall x, owned w2 x = owned (world_taken m row column key tout op w) x) ->
  owned (__map2_drop (Some m) row column key w2) a = owned w a.
Proof.
  intros Hc Hk Hr Hw2. rewrite (drop_valid _ _ _ _ _ Hc Hk).
  rewrite (owned_release_after_acquire _ (owned w (key_mutex m key))).
  - simpl. rewrite Hw2, (owned_world_taken _ _ _ _ _ _ _ _ Hr).
    destruct (a =? key_mutex m key) eqn:E; [|reflexivity].
    apply Z.eqb_eq in E. now subst a.
  - simpl. rewrite Hw2, (owned_world_taken _ _ _ _ _ _ _ _ Hr).
    now rewrite Z.eqb_refl.
Qed.

(** The trace of a call of [__map2_take] on an accepted request. *)
Lemma trace_take m row column key dst tout op w :
  valid_cell m row column -> valid_key m key ->
  trace (snd (__map2_take (Some m) row column key dst tout op w))
  = trace w ++ take_events m row column key dst tout op w.
Proof.
  intros Hc Hk. rewrite (take_valid _ _ _ _ _ _ _ _ Hc Hk). cbv zeta.
  unfold take_events.
  destruct (is_tmo (wait_result _ _ _ _ _ _ _)) eqn:E.
  - unfold wait_result in E. unfold wait_result, os_mut_wait in *.
    simpl in *. rewrite E. simpl. rewrite <- !app_assoc. reflexivity.
  - assert (T := trace_world_taken m row column key tout op w).
    destruct op; cbn [snd].
    + rewrite (trace_drop _ _ _ _ _ Hc Hk).
      destruct (negb (dst =? NULL) && negb (_ =? NULL));
        rewrite ?trace_memcpy, T, <- ?app_assoc; reflexivity.
    + destruct (_ =? NULL).
      * rewrite (trace_drop _ _ _ _ _ Hc Hk), T, <- app_assoc. reflexivity.
      * rewrite T. reflexivity.
Qed.

(** ** Refused requests *)

(** C3. On a request with no map, or with a row, a column or a key out of
    range, [__map2_take] returns [NULL] and leaves the world as it found it:
    [os_mut_wait] is not called (the trace is the same), and no byte of the
    memory, grid and destination included, is read or written. *)
Theorem take_invalid_request m row column key dst tout op w :
  invalid_request m row column key ->
  __map2_take m row column key dst tout op w = (NULL, w).
Proof.
  destruct m as [m|]; [|reflexivity].
  intros H. apply invalid_request_some in H. unfold __map2_take.
  destruct (bad_cell m row column); [reflexivity|].
  destruct H as [H|H]; [discriminate | rewrite H; reflexivity].
Qed.

Lemma take_invalid_request_witness :
  __map2_take (Some map_ex) 4 0 0 buf_ex 100 MAP2_OP_READONLY world_free
  = (NULL, world_free) /\
  __map2_take (Some map_ex) 0 0 2 buf_ex 100 MAP2_OP_READWRITE world_free
  = (NULL, world_free) /\
  __map2_take None 0 0 0 buf_ex 100 MAP2_OP_READONLY world_free
  = (NULL, world_free).
Proof.
  split; [| split].
  - apply (take_invalid_request (Some map_ex) 4 0 0). simpl. lia.
  - apply (take_invalid_request (Some map_ex) 0 0 2). simpl. lia.
  - apply (take_invalid_request None 0 0 0). exact I.
Defined.

(** ** The timeout handed to the kernel *)

Lemma adjust_tout_ge tout :
  65535 <= tout < Int32.modulus -> adjust_tout tout = tout - 1.
Proof.
  intros H. unfold adjust_tout.
  replace (tout >=? 65535) with true by lia.
  apply to_uint32_id. lia.
Qed.

Lemma adjust_tout_lt tout : tout < 65535 -> adjust_tout tout = tout.
Proof.
  intros H. unfold adjust_tout.
  replace (tout >=? 65535) with false by lia. reflexivity.
Qed.

(** The only [uint32_t] that reaches the kernel as [0xFFFF] is [0x10000]. *)
Lemma adjust_tout_sentinel tout :
  0 <= tout < Int32.modulus -> (adjust_tout tout = 65535 <-> tout = 65536).
Proof.
  intros H. destruct (Z_lt_ge_dec tout 65535) as [Hlt|Hge].
  - rewrite adjust_tout_lt by assumption. lia.
  - rewrite adjust_tout_ge by lia. lia.
Qed.

(** On an accepted request [os_mut_wait] is called once, with the adjusted
    timeout. *)
Lemma take_forwards_adjusted m row column key dst tout op w :
  valid_cell m row column -> valid_key m key ->
  forwarded (trace (snd (__map2_take (Some m) row column key dst tout op w)))
  = forwarded (trace w) ++ [adjust_tout tout].
Proof.
  intros Hc Hk. rewrite (trace_take _ _ _ _ _ _ _ _ Hc Hk), forwarded_app.
  f_equal. unfold take_events, drop_events.
  destruct (is_tmo _); [reflexivity|].
  destruct op; simpl.
  - destruct (negb (dst =? NULL) && negb (_ =? NULL)); reflexivity.
  - destruct (_ =? NULL); reflexivity.
Qed.

(** C1, at the timeout [0x10000]. The comment of [__map2_take] announces a
    timeout that never reaches the maximum of the RTOS; a request of
    [0x10000] on an accepted cell is nevertheless handed to [os_mut_wait] as
    [0xFFFF], the value that waits for ever.  A request of [0xFFFF] is
    handed over as [0xFFFE]. *)
Theorem take_tout_65536_forwards_sentinel :
  forwarded (trace (snd (__map2_take (Some map_ex) 0 0 0 buf_ex 65536
                                     MAP2_OP_READONLY world_free)))
  = [65535] /\
  forwarded (trace (snd (__map2_take (Some map_ex) 0 0 0 buf_ex 65535
                                     MAP2_OP_READONLY world_free)))
  = [65534].
Proof. split; vm_compute; reflexivity. Qed.

(** ** No lock is left behind a failure *)

Lemma wait_world_tmo m row column key tout op w :
  is_tmo (wait_result m row column key tout op w) = true ->
  snd (os_mut_wait (key_mutex m key) (adjust_tout tout)
                   (world_at_wait row column key tout op w))
  = log (Ev_os_mut_wait (key_mutex m key) (adjust_tout tout)
                        (wait_result m row column key tout op w))
        (world_at_wait row column key tout op w).
Proof.
  unfold wait_result, os_mut_wait. cbn [fst snd]. intros H. rewrite H.
  reflexivity.
Qed.

(** A call that does not return [NULL] was given a map and valid indices,
    and the kernel granted the mutex. *)
Lemma take_success_inv m row column key dst tout op w :
  fst (__map2_take m row column key dst tout op w) <> NULL ->
  exists m0, m = Some m0 /\ valid_cell m0 row column /\ valid_key m0 key /\
             is_tmo (wait_result m0 row column key tout op w) = false.
Proof.
  destruct m as [m|]; [| intros H; now contradiction H].
  intros H. exists m. split; [reflexivity|].
  destruct (bad_cell m row column) eqn:Hc.
  { unfold __map2_take in H. rewrite Hc in H. now contradiction H. }
  destruct (bad_key m key) eqn:Hk.
  { unfold __map2_take in H. rewrite Hc, Hk in H. now contradiction H. }
  apply bad_cell_false in Hc. apply bad_key_false in Hk.
  repeat split; try apply Hc; try apply Hk.
  rewrite (take_valid _ _ _ _ _ _ _ _ Hc Hk) in H. cbv zeta in H.
  destruct (is_tmo _); [now contradiction H | reflexivity].
Qed.

(** C2. When [__map2_take] returns [NULL] the calling task owns every mutex
    exactly as before the call, and the memory is the same.  Either the
    arguments were refused and nothing happened; or [os_mut_wait] answered
    [OS_R_TMO] and the mutex was not acquired; or the mutex was acquired and
    [__map2_drop] released it before the return. *)
Theorem take_null_lock_not_held m row column key dst tout op w :
  fst (__map2_take m row column key dst tout op w) = NULL ->
  let w' := snd (__map2_take m row column key dst tout op w) in
  (forall a, owned w' a = owned w a) /\
  mem w' = mem w /\
  (w' = w \/
   (exists m0, m = Some m0 /\
      wait_result m0 row column key tout op w = OS_R_TMO /\
      trace w' = trace w ++
        [Ev_dbgW (Dbg_Wait row column key (adjust_tout tout) (op_code op));
         Ev_os_mut_wait (key_mutex m0 key) (adjust_tout tout) OS_R_TMO;
         Ev_dbgW (Dbg_Timeout row column key (adjust_tout tout))]) \/
   (exists m0, m = Some m0 /\
      wait_result m0 row column key tout op w <> OS_R_TMO /\
      trace w' = trace w ++
        [Ev_dbgW (Dbg_Wait row column key (adjust_tout tout) (op_code op));
         Ev_os_mut_wait (key_mutex m0 key) (adjust_tout tout)
                        (wait_result m0 row column key tout op w);
         Ev_dbgW (Dbg_Take row column key (cell_ptr m0 row column =? NULL));
         Ev_dbgW (Dbg_Drop row column key);
         Ev_os_mut_release (key_mutex m0 key)])).
Proof.
  destruct m as [m|]; [| intros _; cbn; auto].
  destruct (bad_cell m row column) eqn:Hc.
  { unfold __map2_take. rewrite Hc. cbn. auto. }
  destruct (bad_key m key) eqn:Hk.
  { unfold __map2_take. rewrite Hc, Hk. cbn. auto. }
  apply bad_cell_false in Hc. apply bad_key_false in Hk.
  rewrite (take_valid _ _ _ _ _ _ _ _ Hc Hk). cbv zeta.
  destruct (is_tmo (wait_result m row column key tout op w)) eqn:E.
  - (* timeout *)
    intros _. cbn [snd]. rewrite (wait_world_tmo _ _ _ _ _ _ _ E).
    assert (R : wait_result m row column key tout op w = OS_R_TMO)
      by (destruct (wait_result m row column key tout op w);
          [reflexivity | discriminate | discriminate]).
    split; [| split].
    + intros a. reflexivity.
    + reflexivity.
    + right; left. exists m. split; [reflexivity | split; [exact R|]].
      rewrite R. cbn. rewrite <- !app_assoc. reflexivity.
  - (* the mutex is owned *)
    assert (R : wait_result m row column key tout op w <> OS_R_TMO)
      by (intros R; rewrite R in E; discriminate).
    assert (D : forall a,
      owned (__map2_drop (Some m) row column key
               (world_taken m row column key tout op w)) a = owned w a)
      by (intros a; apply (owned_drop_taken _ _ _ _ tout op); auto).
    assert (T :
      trace (__map2_drop (Some m) row column key
               (world_taken m row column key tout op w)) =
      trace w ++
        [Ev_dbgW (Dbg_Wait row column key (adjust_tout tout) (op_code op));
         Ev_os_mut_wait (key_mutex m key) (adjust_tout tout)
                        (wait_result m row column key tout op w);
         Ev_dbgW (Dbg_Take row column key (cell_ptr m row column =? NULL));
         Ev_dbgW (Dbg_Drop row column key);
         Ev_os_mut_release (key_mutex m key)]).
    { rewrite (trace_drop _ _ _ _ _ Hc Hk), trace_world_taken.
      rewrite <- app_assoc. reflexivity. }
    destruct op; cbn [fst snd]; intros Hp.
    + (* read-only: the destination is [NULL], nothing is copied *)
      replace (negb (dst =? NULL)) with false
        by (rewrite Hp; reflexivity).
      cbn [andb]. split; [exact D | split].
      * rewrite mem_drop. apply mem_world_taken.
      * right; right. exists m.
        split; [reflexivity | split; [exact R | exact T]].
    + (* read-write: the cell is at [NULL] *)
      assert (Hs : (cell_ptr m row column =? NULL) = true)
        by (rewrite Hp; reflexivity).
      rewrite Hs. split; [exact D | split].
      * rewrite mem_drop. apply mem_world_taken.
      * right; right. exists m.
        split; [reflexivity | split; [exact R | exact T]].
Qed.

Lemma take_null_lock_not_held_witness :
  (forall a,
     owned (snd (__map2_take (Some map_ex) 0 0 0 NULL 100 MAP2_OP_READONLY
                             world_free)) a = owned world_free a) /\
  releases (trace (snd (__map2_take (Some map_ex) 0 0 0 NULL 100
                                    MAP2_OP_READONLY world_free)))
  = [key_mutex map_ex 0].
Proof.
  split.
  - apply (take_null_lock_not_held (Some map_ex) 0 0 0 NULL 100
             MAP2_OP_READONLY world_free).
    vm_compute. reflexivity.
  - vm_compute. reflexivity.
Defined.

(** ** The layout of the grid *)

Lemma cell_index_bounds m row column :
  valid_cell m row column ->
  0 <= columns m * row /\
  0 <= column + columns m * row /\
  column + columns m * row + 1 <= rows m * columns m.
Proof. unfold valid_cell. intros [Hr Hc]. nia. Qed.

(** On a grid whose size is an [int], [map2_pos] does not wrap: it is the
    row-major offset of the cell, and the cell ends inside the grid. *)
Lemma map2_pos_exact m row column :
  grid_fits m -> valid_cell m row column ->
  map2_pos m row column = (column + columns m * row) * field_size m /\
  0 <= map2_pos m row column /\
  map2_pos m row column + field_size m <= rows m * columns m * field_size m.
Proof.
  intros [Hfs Hsz] Hv.
  destruct (cell_index_bounds m row column Hv) as (B1 & B2 & B3).
  destruct Hv as [_ Hcol].
  unfold Int32.INT_MAX in Hsz.
  set (n := column + columns m * row) in *.
  set (N := rows m * columns m) in *.
  assert (K : N <= N * field_size m) by nia.
  assert (J : (n + 1) * field_size m <= N * field_size m)
    by (apply Z.mul_le_mono_nonneg_r; lia).
  assert (J0 : 0 <= n * field_size m) by (apply Z.mul_nonneg_nonneg; lia).
  assert (I1 : Int32.in_int (columns m * row))
    by (unfold Int32.in_int, Int32.INT_MIN, Int32.INT_MAX; lia).
  assert (I2 : Int32.in_int n)
    by (unfold Int32.in_int, Int32.INT_MIN, Int32.INT_MAX; lia).
  assert (I3 : Int32.in_int (n * field_size m))
    by (unfold Int32.in_int, Int32.INT_MIN, Int32.INT_MAX; lia).
  unfold map2_pos, Int32.mul, Int32.add.
  rewrite (to_int_id _ I1). fold n. rewrite (to_int_id _ I2), (to_int_id _ I3).
  split; [reflexivity | lia].
Qed.

(** With the grid inside the 32-bit address space, [map2_ptr] does not wrap
    either. *)
Lemma cell_ptr_exact m row column :
  grid_fits m -> valid_cell m row column ->
  0 <= data m ->
  data m + rows m * columns m * field_size m <= Int32.modulus ->
  cell_ptr m row column
  = data m + (column + columns m * row) * field_size m.
Proof.
  intros Hg Hv Hd Hend.
  destruct (map2_pos_exact m row column Hg Hv) as (P & P0 & P1).
  destruct Hg as [Hfs _].
  unfold cell_ptr, map2_ptr. rewrite <- P. apply to_uint32_id. lia.
Qed.

Lemma MAP2_grid_fits sz grid mutexes nrows ncolumns nkeys :
  1 <= sz -> 1 <= nrows -> 1 <= ncolumns ->
  nrows * ncolumns * sz <= Int32.INT_MAX ->
  let m := MAP2 sz grid mutexes nrows ncolumns nkeys in
  grid_fits m /\ field_size m = sz /\
  data_size m = rows m * columns m * field_size m.
Proof.
  intros Hsz Hr Hc Hmax. unfold Int32.INT_MAX in Hmax.
  assert (I1 : Int32.in_int sz)
    by (unfold Int32.in_int, Int32.INT_MIN, Int32.INT_MAX; nia).
  assert (I2 : Int32.in_int (nrows * ncolumns * sz))
    by (unfold Int32.in_int, Int32.INT_MIN, Int32.INT_MAX; nia).
  unfold grid_fits, MAP2. cbn [field_size rows columns data_size].
  rewrite (to_int_id _ I1), (to_int_id _ I2).
  unfold Int32.INT_MAX. repeat split; lia.
Qed.

(** C9. For a map made by [MAP2] (so that [data_size] is
    [rows * columns * field_size], the size of the static array, an [int])
    and a valid row and column, the offset [map2_pos] is the row-major one
    and [offset + field_size <= data_size]: the cell that [__map2_take]
    reads or hands over lies inside the grid. *)
Theorem MAP2_cell_in_grid sz grid mutexes nrows ncolumns nkeys row column :
  1 <= sz ->
  nrows * ncolumns * sz <= Int32.INT_MAX ->
  0 <= row < nrows -> 0 <= column < ncolumns ->
  let m := MAP2 sz grid mutexes nrows ncolumns nkeys in
  data_size m = rows m * columns m * field_size m /\
  map2_pos m row column = (column + ncolumns * row) * sz /\
  0 <= map2_pos m row column /\
  map2_pos m row column + field_size m <= data_size m /\
  (0 <= grid -> grid + data_size m <= Int32.modulus ->
   cell_ptr m row column = grid + map2_pos m row column /\
   forall a, in_range (cell_ptr m row column) (field_size m) a -> in_grid m a).
Proof.
  intros Hsz Hmax Hrow Hcol m.
  destruct (MAP2_grid_fits sz grid mutexes nrows ncolumns nkeys)
    as (Hg & Hfs & Hds); try lia.
  fold m in Hg, Hfs, Hds.
  assert (Hv : valid_cell m row column) by (split; assumption).
  destruct (map2_pos_exact m row column Hg Hv) as (P & P0 & P1).
  rewrite <- Hds in P1.
  split; [exact Hds | split; [| split; [exact P0 | split; [exact P1 |]]]].
  - rewrite P, Hfs. reflexivity.
  - intros Hgrid Hend.
    assert (C : cell_ptr m row column = grid + map2_pos m row column).
    { rewrite P. apply (cell_ptr_exact m row column Hg Hv Hgrid).
      rewrite <- Hds. exact Hend. }
    split; [exact C|].
    intros a. unfold in_grid, in_range. rewrite C.
    change (data m) with grid. lia.
Qed.

Lemma MAP2_cell_in_grid_witness :
  map2_pos map_ex 3 1 = 56 /\
  map2_pos map_ex 3 1 + field_size map_ex <= data_size map_ex.
Proof.
  assert (H1 : 1 <= 8) by lia.
  assert (H2 : 4 * 2 * 8 <= Int32.INT_MAX) by (vm_compute; discriminate).
  assert (H3 : 0 <= 3 < 4) by lia.
  assert (H4 : 0 <= 1 < 2) by lia.
  destruct (MAP2_cell_in_grid 8 4096 8192 4 2 2 3 1 H1 H2 H3 H4)
    as (_ & P & _ & B & _).
  split; [exact P | exact B].
Defined.

(** C10. On a map with at least one column whose grid has a size that is an
    [int], the item macros invert the row-major layout: for the [i]-th item
    [map2_item_row] is [i / columns], [map2_item_column] is [i % columns],
    and [map2_pos] of that row and column is [i * field_size], so that the
    cell found is the item itself. *)
Theorem item_position_roundtrip m i :
  1 <= columns m ->
  grid_fits m ->
  0 <= i < rows m * columns m ->
  let item := nth_item m (field_size m) i in
  let row := map2_item_row m (field_size m) item in
  let column := map2_item_column m (field_size m) item in
  row = i / columns m /\
  column = i mod columns m /\
  valid_cell m row column /\
  map2_pos m row column = i * field_size m /\
  data m + map2_pos m row column = item.
Proof.
  intros Hc Hg Hi item row column.
  assert (Hfs : 1 <= field_size m) by apply Hg.
  assert (Hidx : item_index m (field_size m) item = i).
  { unfold item_index, item, nth_item.
    replace (data m + i * field_size m - data m) with (i * field_size m)
      by lia.
    apply Z.quot_mul. lia. }
  assert (Hrow : row = i / columns m).
  { unfold row, map2_item_row. rewrite Hidx.
    apply Z.quot_div_nonneg; lia. }
  assert (Hcol : column = i mod columns m).
  { unfold column, map2_item_column. rewrite Hidx.
    apply Z.rem_mod_nonneg; lia. }
  assert (Hdm := Z.div_mod i (columns m) ltac:(lia)).
  assert (Hmb := Z.mod_pos_bound i (columns m) ltac:(lia)).
  assert (Hq0 : 0 <= i / columns m) by (apply Z.div_pos; lia).
  assert (Hv : valid_cell m row column).
  { rewrite Hrow, Hcol. split; [split; [exact Hq0 | nia] | exact Hmb]. }
  destruct (map2_pos_exact m row column Hg Hv) as (P & _).
  assert (Hpos : map2_pos m row column = i * field_size m).
  { rewrite P, Hrow, Hcol. f_equal. lia. }
  repeat split; try assumption; try apply Hv.
  rewrite Hpos. reflexivity.
Qed.

Lemma item_position_roundtrip_witness :
  map2_item_row map_ex 8 (nth_item map_ex 8 5) = 5 / 2 /\
  map2_item_column map_ex 8 (nth_item map_ex 8 5) = 5 mod 2 /\
  map2_pos map_ex 2 1 = 5 * 8.
Proof.
  assert (H1 : 1 <= columns map_ex) by (vm_compute; discriminate).
  assert (H2 : grid_fits map_ex)
    by (unfold grid_fits; vm_compute; intuition discriminate).
  assert (H3 : 0 <= 5 < rows map_ex * columns map_ex)
    by (vm_compute; intuition discriminate).
  destruct (item_position_roundtrip map_ex 5 H1 H2 H3) as (R & C & _ & P & _).
  split; [exact R | split; [exact C | exact P]].
Defined.

(** ** Memory *)

Lemma copy_bytes_inside mm dst src n i :
  0 <= i < n -> copy_bytes mm dst src n (dst + i) = mm (src + i).
Proof.
  intros H. unfold copy_bytes.
  replace ((dst <=? dst + i) && (dst + i <? dst + n)) with true by lia.
  f_equal. lia.
Qed.

Lemma copy_bytes_outside mm dst src n a :
  ~ in_range dst n a -> copy_bytes mm dst src n a = mm a.
Proof.
  unfold in_range, copy_bytes. intros H.
  replace ((dst <=? a) && (a <? dst + n)) with false by lia. reflexivity.
Qed.

(** Stores leave the bytes at other addresses alone. *)
Lemma mem_stores_elsewhere (P : ptr -> Prop) l : forall w a,
  Forall (fun s => P (fst s)) l -> ~ P a -> mem (stores l w) a = mem w a.
Proof.
  induction l as [|s l IH]; intros w a Hl Ha; [reflexivity|].
  inversion Hl as [|s' l' Hs Hl']; subst.
  unfold stores in *. cbn [fold_left]. rewrite (IH _ a Hl' Ha).
  unfold store_byte. cbn [mem].
  destruct (Z.eqb_spec a (fst s)) as [->|]; [contradiction | reflexivity].
Qed.

(** ** Read-only access *)

(** The memory after an access in read-only mode that acquired the mutex:
    the cell is found from [dst] when both pointers are not [NULL]; every
    byte outside the destination is as before. *)
Lemma take_readonly_lemma m row column key dst tout w :
  valid_cell m row column -> valid_key m key ->
  wait_result m row column key tout MAP2_OP_READONLY w <> OS_R_TMO ->
  let src := cell_ptr m row column in
  let n := Int32.to_uint32 (field_size m) in
  let r := __map2_take (Some m) row column key dst tout MAP2_OP_READONLY w in
  fst r = dst /\
  (dst <> NULL -> src <> NULL ->
   forall i, 0 <= i < n -> mem (snd r) (dst + i) = mem w (src + i)) /\
  (forall a, ~ in_range dst n a -> mem (snd r) a = mem w a).
Proof.
  intros Hc Hk Hr src n r.
  assert (E : is_tmo (wait_result m row column key tout MAP2_OP_READONLY w)
              = false)
    by (destruct (wait_result m row column key tout MAP2_OP_READONLY w);
        [contradiction | reflexivity | reflexivity]).
  assert (Hval := take_valid m row column key dst tout MAP2_OP_READONLY w
                    Hc Hk).
  cbv zeta in Hval. rewrite E in Hval. fold src n r in Hval.
  rewrite Hval. cbn [fst snd]. rewrite mem_drop.
  split; [reflexivity | split].
  - intros Hd Hs i Hi.
    replace (negb (dst =? NULL) && negb (src =? NULL)) with true
      by (unfold NULL in *; lia).
    unfold memcpy, log. cbn [mem]. rewrite mem_world_taken.
    now apply copy_bytes_inside.
  - intros a Ha.
    destruct (negb (dst =? NULL) && negb (src =? NULL)).
    + unfold memcpy, log. cbn [mem]. rewrite mem_world_taken.
      now apply copy_bytes_outside.
    + now rewrite mem_world_taken.
Qed.

(** C6 (as amended). On a valid row, column and key, once the mutex is
    acquired in read-only mode, [__map2_take] returns [dst] and always calls
    [__map2_drop] before it returns, so that the mutex is owned as before
    the call.  When [dst] and the address of the cell are both not [NULL],
    it first copies the [field_size] bytes of the cell to [dst] and changes
    no other byte; the cell is at the row-major offset
    [(column + columns * row) * field_size] when the size of the grid is an
    [int].  The success block of [map2_readonly_trycatch] runs in the world
    the call leaves, the mutex already released. *)
Theorem take_readonly_copies_then_drops m row column key dst tout w :
  valid_cell m row column -> valid_key m key ->
  wait_result m row column key tout MAP2_OP_READONLY w <> OS_R_TMO ->
  let src := cell_ptr m row column in
  let n := Int32.to_uint32 (field_size m) in
  let r := __map2_take (Some m) row column key dst tout MAP2_OP_READONLY w in
  fst r = dst /\
  (forall a, owned (snd r) a = owned w a) /\
  trace (snd r) = trace w ++
    [Ev_dbgW (Dbg_Wait row column key (adjust_tout tout) 0);
     Ev_os_mut_wait (key_mutex m key) (adjust_tout tout)
       (wait_result m row column key tout MAP2_OP_READONLY w);
     Ev_dbgW (Dbg_Take row column key (src =? NULL))] ++
    (if negb (dst =? NULL) && negb (src =? NULL)
     then [Ev_memcpy dst src n] else []) ++
    [Ev_dbgW (Dbg_Drop row column key);
     Ev_os_mut_release (key_mutex m key)] /\
  (dst <> NULL -> src <> NULL ->
   (forall i, 0 <= i < n -> mem (snd r) (dst + i) = mem w (src + i)) /\
   (forall a, ~ in_range dst n a -> mem (snd r) a = mem w a)) /\
  (dst <> NULL ->
   forall fnc err,
     map2_readonly_trycatch (Some m) row column key dst tout fnc err w
     = fnc (snd r)) /\
  (grid_fits m ->
   n = field_size m /\
   map2_pos m row column = (column + columns m * row) * field_size m).
Proof.
  intros Hc Hk Hr src n r.
  assert (E : is_tmo (wait_result m row column key tout MAP2_OP_READONLY w)
              = false)
    by (destruct (wait_result m row column key tout MAP2_OP_READONLY w);
        [contradiction | reflexivity | reflexivity]).
  assert (Hval := take_valid m row column key dst tout MAP2_OP_READONLY w
                    Hc Hk).
  cbv zeta in Hval. rewrite E in Hval. fold src n r in Hval.
  split; [rewrite Hval; reflexivity | split; [| split; [| split; [| split]]]].
  - intros a. rewrite Hval. cbn [snd].
    apply (owned_drop_taken _ _ _ _ tout MAP2_OP_READONLY); auto.
    intros x. destruct (negb (dst =? NULL) && negb (src =? NULL));
      reflexivity.
  - unfold r. rewrite (trace_take _ _ _ _ _ _ _ _ Hc Hk).
    unfold take_events. rewrite E. reflexivity.
  - intros Hd Hs. rewrite Hval. cbn [snd]. rewrite mem_drop.
    replace (negb (dst =? NULL) && negb (src =? NULL)) with true
      by (unfold NULL in *; lia).
    unfold memcpy, log. cbn [mem]. rewrite mem_world_taken.
    split; [intros i Hi; now apply copy_bytes_inside
           | intros a Ha; now apply copy_bytes_outside].
  - intros Hd fnc err. unfold map2_readonly_trycatch. fold r.
    rewrite (surjective_pairing r).
    replace (fst r) with dst by (rewrite Hval; reflexivity).
    replace (negb (dst =? NULL)) with true by (unfold NULL in *; lia).
    reflexivity.
  - intros Hg. split.
    + destruct Hg as [Hfs Hsz]. unfold n. apply to_uint32_id.
      unfold Int32.INT_MAX, Int32.modulus in *.
      destruct (cell_index_bounds m row column Hc) as (_ & B0 & B).
      set (N := rows m * columns m) in *.
      assert (1 * field_size m <= N * field_size m)
        by (apply Z.mul_le_mono_nonneg_r; lia).
      lia.
    + apply (map2_pos_exact m row column Hg Hc).
Qed.

Lemma take_readonly_copies_then_drops_witness :
  fst (__map2_take (Some map_ex) 1 0 1 buf_ex 100 MAP2_OP_READONLY world_free)
  = buf_ex /\
  mem (snd (__map2_take (Some map_ex) 1 0 1 buf_ex 100 MAP2_OP_READONLY
                        world_free)) (buf_ex + 3)
  = mem world_free (cell_ptr map_ex 1 0 + 3) /\
  map2_pos map_ex 1 0 = (0 + columns map_ex * 1) * field_size map_ex.
Proof.
  assert (Hc : valid_cell map_ex 1 0) by (unfold valid_cell; simpl; lia).
  assert (Hk : valid_key map_ex 1) by (unfold valid_key; simpl; lia).
  assert (Hr : wait_result map_ex 1 0 1 100 MAP2_OP_READONLY world_free
               <> OS_R_TMO) by (vm_compute; discriminate).
  assert (Hg : grid_fits map_ex)
    by (unfold grid_fits; vm_compute; intuition discriminate).
  destruct (take_readonly_copies_then_drops map_ex 1 0 1 buf_ex 100
              world_free Hc Hk Hr) as (R & _ & _ & C & _ & P).
  split; [exact R | split].
  - apply C; [vm_compute; discriminate | vm_compute; discriminate
             | vm_compute; intuition discriminate].
  - apply (P Hg).
Defined.

(** C6, as stated, fails when a pointer is [NULL]: the row, the column and
    the key are valid and the mutex is acquired, but nothing is copied,
    neither with the destination [NULL] nor, on the descriptor [map_nodata]
    whose cell 0,0 is at [NULL], with the destination [buf_ex], a call that
    returns [buf_ex] all the same. *)
Lemma take_readonly_null_pointer_no_copy :
  (valid_cell map_ex 0 0 /\ valid_key map_ex 0 /\
   wait_result map_ex 0 0 0 100 MAP2_OP_READONLY world_free <> OS_R_TMO /\
   copies (trace (snd (__map2_take (Some map_ex) 0 0 0 NULL 100
                                   MAP2_OP_READONLY world_free))) = []) /\
  (valid_cell map_nodata 0 0 /\ valid_key map_nodata 0 /\
   wait_result map_nodata 0 0 0 100 MAP2_OP_READONLY world_free
     <> OS_R_TMO /\
   fst (__map2_take (Some map_nodata) 0 0 0 buf_ex 100 MAP2_OP_READONLY
                    world_free) = buf_ex /\
   copies (trace (snd (__map2_take (Some map_nodata) 0 0 0 buf_ex 100
                                   MAP2_OP_READONLY world_free))) = []).
Proof.
  split.
  - split; [unfold valid_cell; simpl; lia|].
    split; [unfold valid_key; simpl; lia|].
    split; [vm_compute; discriminate | vm_compute; reflexivity].
  - split; [unfold valid_cell; simpl; lia|].
    split; [unfold valid_key; simpl; lia|].
    split; [vm_compute; discriminate|].
    split; vm_compute; reflexivity.
Qed.

(** C7. After a successful read-only access whose destination buffer lies
    outside the grid, the call has returned the destination itself, not a
    pointer into the grid, and the two are separate: whatever is then
    stored into the buffer, every byte of the grid is as it was before the
    call; whatever is then stored into the grid, every byte of the buffer
    is as the call left it, that is, when the cell is not at [NULL], the
    byte of the cell at the time of the call. *)
Theorem readonly_copy_is_snapshot m row column key dst tout w :
  fst (__map2_take (Some m) row column key dst tout MAP2_OP_READONLY w)
    <> NULL ->
  (forall a, in_range dst (Int32.to_uint32 (field_size m)) a ->
             ~ in_grid m a) ->
  let n := Int32.to_uint32 (field_size m) in
  let r := __map2_take (Some m) row column key dst tout MAP2_OP_READONLY w in
  fst r = dst /\
  (forall l g,
     Forall (fun s => in_range dst n (fst s)) l -> in_grid m g ->
     mem (stores l (snd r)) g = mem w g) /\
  (forall l i,
     Forall (fun s => in_grid m (fst s)) l -> 0 <= i < n ->
     mem (stores l (snd r)) (dst + i) = mem (snd r) (dst + i)) /\
  (cell_ptr m row column <> NULL ->
   forall l i,
     Forall (fun s => in_grid m (fst s)) l -> 0 <= i < n ->
     mem (stores l (snd r)) (dst + i) = mem w (cell_ptr m row column + i)).
Proof.
  intros Hok Hsep n r.
  destruct (take_success_inv _ _ _ _ _ _ _ _ Hok)
    as (m0 & Em & Hc & Hk & E).
  injection Em as <-.
  assert (Hr : wait_result m row column key tout MAP2_OP_READONLY w
               <> OS_R_TMO) by (intros R; rewrite R in E; discriminate).
  destruct (take_readonly_lemma m row column key dst tout w Hc Hk Hr)
    as (R & C & F).
  fold n r in R, C, F.
  assert (Hd : dst <> NULL) by (rewrite <- R; exact Hok).
  assert (Hbuf : forall i, 0 <= i < n -> ~ in_grid m (dst + i)).
  { intros i Hi. apply Hsep. unfold in_range. fold n. lia. }
  split; [exact R | split; [| split]].
  - intros l g Hl Hg.
    rewrite (mem_stores_elsewhere (in_range dst n) l _ g Hl).
    + apply F. intros Hin. exact (Hsep g Hin Hg).
    + intros Hin. exact (Hsep g Hin Hg).
  - intros l i Hl Hi.
    apply (mem_stores_elsewhere (in_grid m) l _ (dst + i) Hl).
    now apply Hbuf.
  - intros Hs l i Hl Hi.
    rewrite (mem_stores_elsewhere (in_grid m) l _ (dst + i) Hl)
      by now apply Hbuf.
    now apply C.
Qed.

Lemma readonly_copy_is_snapshot_witness :
  mem (stores [(buf_ex + 3, Byte.xff)]
              (snd (__map2_take (Some map_ex) 1 0 1 buf_ex 100
                                MAP2_OP_READONLY world_free)))
      (cell_ptr map_ex 1 0 + 3)
  = mem world_free (cell_ptr map_ex 1 0 + 3) /\
  mem (stores [(cell_ptr map_ex 1 0 + 3, Byte.xff)]
              (snd (__map2_take (Some map_ex) 1 0 1 buf_ex 100
                                MAP2_OP_READONLY world_free)))
      (buf_ex + 3)
  = mem world_free (cell_ptr map_ex 1 0 + 3).
Proof.
  assert (Hok : fst (__map2_take (Some map_ex) 1 0 1 buf_ex 100
                                 MAP2_OP_READONLY world_free) <> NULL)
    by (vm_compute; discriminate).
  assert (Hsep : forall a,
            in_range buf_ex (Int32.to_uint32 (field_size map_ex)) a ->
            ~ in_grid map_ex a).
  { intros a. unfold in_grid, in_range.
    change (Int32.to_uint32 (field_size map_ex)) with 8.
    change (data map_ex) with 4096. change (data_size map_ex) with 64.
    unfold buf_ex. lia. }
  destruct (readonly_copy_is_snapshot map_ex 1 0 1 buf_ex 100 world_free
              Hok Hsep) as (_ & G & _ & B).
  split.
  - apply G.
    + constructor; [| constructor]. unfold in_range. cbn [fst].
      change (Int32.to_uint32 (field_size map_ex)) with 8. lia.
    + unfold in_grid, in_range.
      change (cell_ptr map_ex 1 0) with 4112.
      change (data map_ex) with 4096. change (data_size map_ex) with 64.
      lia.
  - apply B.
    + vm_compute. discriminate.
    + constructor; [| constructor]. unfold in_grid, in_range. cbn [fst].
      change (cell_ptr map_ex 1 0) with 4112.
      change (data map_ex) with 4096. change (data_size map_ex) with 64.
      lia.
    + change (Int32.to_uint32 (field_size map_ex)) with 8. lia.
Defined.

(** ** Read-write access *)

(** C8. On a valid row, column and key, a successful access in read-write
    mode returns the address of the cell in the grid, changes no byte, and
    leaves the mutex of the key owned once more than before: nothing is
    released on the way.  [map2_readwrite_trycatch] then runs the success
    block in that world and calls [__map2_drop] on the world the block
    leaves, so that the release is the last event; a block that does not
    itself touch the mutexes ends with every mutex owned as before the
    access. *)
Theorem take_readwrite_holds_lock m row column key dst tout w :
  valid_cell m row column -> valid_key m key ->
  fst (__map2_take (Some m) row column key dst tout MAP2_OP_READWRITE w)
    <> NULL ->
  let r := __map2_take (Some m) row column key dst tout MAP2_OP_READWRITE w in
  let k := key_mutex m key in
  wait_result m row column key tout MAP2_OP_READWRITE w <> OS_R_TMO /\
  fst r = cell_ptr m row column /\
  mem (snd r) = mem w /\
  (forall a, owned (snd r) a = if a =? k then S (owned w k) else owned w a) /\
  trace (snd r) = trace w ++
    [Ev_dbgW (Dbg_Wait row column key (adjust_tout tout) 1);
     Ev_os_mut_wait k (adjust_tout tout)
       (wait_result m row column key tout MAP2_OP_READWRITE w);
     Ev_dbgW (Dbg_Take row column key false)] /\
  releases (trace (snd r)) = releases (trace w) /\
  (forall fnc err,
     let w_end := map2_readwrite_trycatch (Some m) row column key dst tout
                                          fnc err w in
     w_end = __map2_drop (Some m) row column key (fnc (fst r) (snd r)) /\
     trace w_end = trace (fnc (fst r) (snd r)) ++
       [Ev_dbgW (Dbg_Drop row column key); Ev_os_mut_release k] /\
     ((forall a, owned (fnc (fst r) (snd r)) a = owned (snd r) a) ->
      forall a, owned w_end a = owned w a)) /\
  (grid_fits m -> 0 <= data m ->
   data m + rows m * columns m * field_size m <= Int32.modulus ->
   fst r = data m + (column + columns m * row) * field_size m).
Proof.
  intros Hc Hk Hok r k.
  destruct (take_success_inv _ _ _ _ _ _ _ _ Hok)
    as (m0 & Em & _ & _ & E).
  injection Em as <-.
  assert (Hr : wait_result m row column key tout MAP2_OP_READWRITE w
               <> OS_R_TMO) by (intros R; rewrite R in E; discriminate).
  assert (Hval := take_valid m row column key dst tout MAP2_OP_READWRITE w
                    Hc Hk).
  cbv zeta in Hval. rewrite E in Hval. fold r in Hval, Hok.
  assert (Hs : (cell_ptr m row column =? NULL) = false).
  { rewrite Hval in Hok. cbn [fst] in Hok. lia. }
  rewrite Hs in Hval.
  assert (Hfst : fst r = cell_ptr m row column) by (rewrite Hval; reflexivity).
  assert (Hsnd : snd r = world_taken m row column key tout MAP2_OP_READWRITE w)
    by (rewrite Hval; reflexivity).
  assert (Htr : trace (snd r) = trace w ++
    [Ev_dbgW (Dbg_Wait row column key (adjust_tout tout) 1);
     Ev_os_mut_wait k (adjust_tout tout)
       (wait_result m row column key tout MAP2_OP_READWRITE w);
     Ev_dbgW (Dbg_Take row column key false)]).
  { rewrite Hsnd, trace_world_taken, Hs. reflexivity. }
  split; [exact Hr | split; [exact Hfst | split; [| split; [| split;
    [exact Htr | split; [| split]]]]]].
  - rewrite Hsnd. apply mem_world_taken.
  - intros a. rewrite Hsnd. apply (owned_world_taken _ _ _ _ _ _ _ _ E).
  - rewrite Htr, releases_app. cbn. apply app_nil_r.
  - intros fnc err w_end.
    assert (Hend : w_end
              = __map2_drop (Some m) row column key (fnc (fst r) (snd r))).
    { unfold w_end, map2_readwrite_trycatch. fold r.
      rewrite (surjective_pairing r).
      replace (negb (fst r =? NULL)) with true by (unfold NULL in *; lia).
      reflexivity. }
    split; [exact Hend | split].
    + rewrite Hend. apply (trace_drop _ _ _ _ _ Hc Hk).
    + intros Hfnc a. rewrite Hend.
      apply (owned_drop_taken _ _ _ _ tout MAP2_OP_READWRITE); auto.
      intros x. rewrite Hfnc, Hsnd. reflexivity.
  - intros Hg Hd Hendg. rewrite Hfst.
    now apply cell_ptr_exact.
Qed.

Lemma take_readwrite_holds_lock_witness :
  fst (__map2_take (Some map_ex) 0 1 0 NULL 100 MAP2_OP_READWRITE world_free)
  = cell_ptr map_ex 0 1 /\
  owned (snd (__map2_take (Some map_ex) 0 1 0 NULL 100 MAP2_OP_READWRITE
                          world_free)) (key_mutex map_ex 0) = 1%nat /\
  releases (trace (map2_readwrite_trycatch (Some map_ex) 0 1 0 NULL 100
                                           fnc_ex (fun w => w) world_free))
  = [key_mutex map_ex 0].
Proof.
  assert (Hc : valid_cell map_ex 0 1) by (unfold valid_cell; simpl; lia).
  assert (Hk : valid_key map_ex 0) by (unfold valid_key; simpl; lia).
  assert (Hok : fst (__map2_take (Some map_ex) 0 1 0 NULL 100
                                 MAP2_OP_READWRITE world_free) <> NULL)
    by (vm_compute; discriminate).
  destruct (take_readwrite_holds_lock map_ex 0 1 0 NULL 100 world_free
              Hc Hk Hok) as (_ & P & _ & O & _ & _ & M & _).
  split; [exact P | split].
  - rewrite O. reflexivity.
  - destruct (M fnc_ex (fun w => w)) as (_ & T & _).
    rewrite T. vm_compute. reflexivity.
Defined.

(** * More of the code *)

(** ** The key of a row is a key of the map *)

Lemma map2_key_range cfg m row :
  0 <= map2_key cfg m row <= 2 /\
  (match m with
   | Some m0 => keys m0 <> 3 -> map2_key cfg m row <= 1
   | None => True
   end).
Proof.
  destruct m as [m|]; [| cbn; lia].
  unfold map2_key, MAP2_NKEYS_1, MAP2_NKEYS_3.
  destruct ((row <? 0) || (row >=? rows m)); [lia|].
  destruct (keys m =? 1) eqn:K1; [lia|].
  destruct (keys m =? 3) eqn:K3; cbn [andb].
  - destruct (row >=? _); [lia|].
    destruct (Z.rem row (UART_INSTANCES cfg) =? 0); lia.
  - destruct (Z.rem row (UART_INSTANCES cfg) =? 0); lia.
Qed.

(** X1. On a map with at least one key, whatever the board and the row,
    [map2_key] gives a key that [__map2_take] and [__map2_drop] accept; on a
    valid cell the access made with that key is therefore not refused: it
    reaches [os_mut_wait]. *)
Theorem map2_key_is_valid_key cfg m row :
  1 <= keys m ->
  valid_key m (map2_key cfg (Some m) row) /\
  (forall column dst tout op w,
     valid_cell m row column ->
     forwarded (trace (snd (__map2_take (Some m) row column
                              (map2_key cfg (Some m) row) dst tout op w)))
     = forwarded (trace w) ++ [adjust_tout tout]).
Proof.
  intros Hk.
  assert (V : valid_key m (map2_key cfg (Some m) row)).
  { unfold valid_key.
    destruct (map2_key_range cfg (Some m) row) as [[L U] N].
    split; [exact L|].
    destruct (Z.eq_dec (keys m) 3) as [E|E]; [lia|].
    specialize (N E).
    assert (Z1 : keys m = 1 -> map2_key cfg (Some m) row = 0).
    { intros K. unfold map2_key, MAP2_NKEYS_1. rewrite K. cbn.
      destruct ((row <? 0) || (row >=? rows m)); reflexivity. }
    destruct (Z.eq_dec (keys m) 1) as [K|K]; [rewrite (Z1 K); lia | lia]. }
  split; [exact V|].
  intros column dst tout op w Hc. now apply take_forwards_adjusted.
Qed.

Lemma map2_key_is_valid_key_witness :
  valid_key map_ex3 (map2_key board_ex (Some map_ex3) 9) /\
  valid_key map_keys5 (map2_key board_ex (Some map_keys5) 1).
Proof.
  split.
  - apply (map2_key_is_valid_key board_ex map_ex3 9). vm_compute. discriminate.
  - apply (map2_key_is_valid_key board_ex map_keys5 1). vm_compute.
    discriminate.
Defined.

(** ** Why an accepted request fails *)

(** X2. On a valid row, column and key, [__map2_take] returns [NULL] in three
    cases only: [os_mut_wait] answered [OS_R_TMO]; or the mode is read-only
    and the destination is [NULL]; or the mode is read-write and the cell is
    at [NULL]. *)
Theorem take_null_iff m row column key dst tout op w :
  valid_cell m row column -> valid_key m key ->
  (fst (__map2_take (Some m) row column key dst tout op w) = NULL <->
   wait_result m row column key tout op w = OS_R_TMO \/
   (op = MAP2_OP_READONLY /\ dst = NULL) \/
   (op = MAP2_OP_READWRITE /\ cell_ptr m row column = NULL)).
Proof.
  intros Hc Hk. rewrite (take_valid _ _ _ _ _ _ _ _ Hc Hk). cbv zeta.
  destruct (wait_result m row column key tout op w) eqn:R; cbn [is_tmo].
  - cbn [fst]. split; [intros _; left; reflexivity | reflexivity].
  - destruct op; cbn [fst]; split; intros H.
    + right; left. split; [reflexivity | exact H].
    + destruct H as [H|[[_ H]|[H _]]]; [discriminate | exact H | discriminate].
    + right; right. split; [reflexivity | exact H].
    + destruct H as [H|[[H _]|[_ H]]]; [discriminate | discriminate | exact H].
  - destruct op; cbn [fst]; split; intros H.
    + right; left. split; [reflexivity | exact H].
    + destruct H as [H|[[_ H]|[H _]]]; [discriminate | exact H | discriminate].
    + right; right. split; [reflexivity | exact H].
    + destruct H as [H|[[H _]|[_ H]]]; [discriminate | discriminate | exact H].
Qed.

Lemma take_null_iff_witness :
  fst (__map2_take (Some map_ex) 1 0 1 buf_ex 100 MAP2_OP_READONLY world_busy)
  = NULL.
Proof.
  assert (Hc : valid_cell map_ex 1 0) by (unfold valid_cell; simpl; lia).
  assert (Hk : valid_key map_ex 1) by (unfold valid_key; simpl; lia).
  apply (take_null_iff map_ex 1 0 1 buf_ex 100 MAP2_OP_READONLY world_busy
           Hc Hk).
  left. vm_compute. reflexivity.
Defined.

(** ** One wait for each accepted request *)

(** X3. On a valid row, column and key, [__map2_take] calls [os_mut_wait]
    exactly once, whatever the mode and the outcome.  The timeout it hands
    over is the caller's when that is below [0xFFFF], and the caller's minus
    one from [0xFFFF] on. *)
Theorem take_waits_once m row column key dst tout op w :
  valid_cell m row column -> valid_key m key ->
  0 <= tout < Int32.modulus ->
  forwarded (trace (snd (__map2_take (Some m) row column key dst tout op w)))
  = forwarded (trace w) ++ [if tout <? 65535 then tout else tout - 1].
Proof.
  intros Hc Hk Ht. rewrite (take_forwards_adjusted _ _ _ _ _ _ _ _ Hc Hk).
  f_equal. f_equal.
  destruct (Z.ltb_spec tout 65535).
  - now apply adjust_tout_lt.
  - apply adjust_tout_ge. lia.
Qed.

Lemma take_waits_once_witness :
  forwarded (trace (snd (__map2_take (Some map_ex) 1 0 1 buf_ex 2000
                                     MAP2_OP_READWRITE world_busy)))
  = [2000].
Proof.
  assert (Hc : valid_cell map_ex 1 0) by (unfold valid_cell; simpl; lia).
  assert (Hk : valid_key map_ex 1) by (unfold valid_key; simpl; lia).
  assert (Ht : 0 <= 2000 < Int32.modulus) by (vm_compute; intuition discriminate).
  apply (take_waits_once map_ex 1 0 1 buf_ex 2000 MAP2_OP_READWRITE
           world_busy Hc Hk Ht).
Defined.

(** ** [__map2_drop] *)

(** X4. [__map2_drop] refuses the requests [__map2_take] refuses, silently:
    with no map, or a row, a column or a key out of range, it leaves the
    world as it found it and [os_mut_release] is not called.  On a valid
    request it calls [os_mut_release] once, on the mutex of the key; in no
    case does it change a byte of the memory. *)
Theorem drop_invalid_request m row column key w :
  (invalid_request m row column key ->
   __map2_drop m row column key w = w) /\
  (forall m0, m = Some m0 -> valid_cell m0 row column -> valid_key m0 key ->
     releases (trace (__map2_drop m row column key w))
     = releases (trace w) ++ [key_mutex m0 key]) /\
  mem (__map2_drop m row column key w) = mem w.
Proof.
  split; [| split].
  - destruct m as [m|]; [|reflexivity].
    intros H. apply invalid_request_some in H. unfold __map2_drop.
    destruct (bad_cell m row column); [reflexivity|].
    destruct H as [H|H]; [discriminate | rewrite H; reflexivity].
  - intros m0 -> Hc Hk. rewrite (trace_drop _ _ _ _ _ Hc Hk), releases_app.
    reflexivity.
  - apply mem_drop.
Qed.

Lemma drop_invalid_request_witness :
  __map2_drop (Some map_ex) 0 2 0 world_free = world_free /\
  releases (trace (__map2_drop (Some map_ex) 0 1 0 world_free))
  = [key_mutex map_ex 0].
Proof.
  destruct (drop_invalid_request (Some map_ex) 0 2 0 world_free) as (A & _).
  destruct (drop_invalid_request (Some map_ex) 0 1 0 world_free)
    as (_ & B & _).
  split.
  - apply A. simpl. lia.
  - apply (B map_ex eq_refl); [unfold valid_cell | unfold valid_key];
      simpl; lia.
Defined.

(** ** [__map2_init] *)

Lemma init_from_spec m n : forall i w,
  trace (init_from m (Z.of_nat i) n w) = trace w ++ init_events m i n /\
  mem (init_from m (Z.of_nat i) n w) = mem w /\
  (forall a,
     owned (init_from m (Z.of_nat i) n w) a =
     if existsb (fun k => a =? key_mutex m (Z.of_nat k)) (seq i n)
     then O else owned w a).
Proof.
  induction n as [|n IH]; intros i w.
  - cbn. rewrite app_nil_r. auto.
  - cbn [init_from].
    replace (Z.of_nat i + 1) with (Z.of_nat (S i)) by lia.
    destruct (IH (S i) (os_mut_init (map2_ptr (mut m) (Z.of_nat i)) w))
      as (T & M & O).
    split; [| split].
    + rewrite T. unfold init_events. cbn. rewrite <- app_assoc. reflexivity.
    + rewrite M. reflexivity.
    + intros a. rewrite O. cbn [seq existsb].
      unfold os_mut_init, set_owned, log, key_mutex. cbn [owned].
      destruct (existsb _ (seq (S i) n)); [now rewrite Bool.orb_true_r|].
      rewrite Bool.orb_false_r. reflexivity.
Qed.

(** X5. [__map2_init] calls [os_mut_init] once for each key, from key 0 to
    key [keys - 1] in that order, on the address [__map2_take] and
    [__map2_drop] use for that key, and changes no byte of the memory.  With
    no map, or with no key ([keys <= 0]), it does nothing. *)
Theorem init_calls_os_mut_init m w :
  trace (__map2_init (Some m) w)
  = trace w ++ init_events m 0 (Z.to_nat (keys m)) /\
  mem (__map2_init (Some m) w) = mem w /\
  (keys m <= 0 -> __map2_init (Some m) w = w) /\
  __map2_init None w = w.
Proof.
  unfold __map2_init.
  destruct (init_from_spec m (Z.to_nat (keys m)) 0 w) as (T & M & _).
  change (Z.of_nat 0) with 0 in *.
  split; [exact T | split; [exact M | split; [| reflexivity]]].
  intros H. replace (Z.to_nat (keys m)) with O by lia. reflexivity.
Qed.

Lemma key_in_seq (n : nat) key :
  0 <= key < Z.of_nat n -> In (Z.to_nat key) (seq 0 n).
Proof. intros H. apply in_seq. lia. Qed.

Lemma owned_after_init m w key :
  valid_key m key -> owned (__map2_init (Some m) w) (key_mutex m key) = O.
Proof.
  intros Hk. unfold valid_key in Hk. unfold __map2_init.
  destruct (init_from_spec m (Z.to_nat (keys m)) 0 w) as (_ & _ & O).
  change (Z.of_nat 0) with 0 in *. rewrite O.
  replace (existsb _ _) with true; [reflexivity|].
  symmetry. apply existsb_exists. exists (Z.to_nat key).
  split; [apply key_in_seq; lia|]. rewrite Z2Nat.id by lia. apply Z.eqb_refl.
Qed.

(** X6. After [__map2_init] every mutex that a valid key can designate has
    been initialised and is owned by nobody, whatever was owned before; the
    mutexes at other addresses are owned as before. *)
Theorem init_resets_every_key m w :
  (forall key, valid_key m key ->
     In (Ev_os_mut_init (key_mutex m key)) (trace (__map2_init (Some m) w)) /\
     owned (__map2_init (Some m) w) (key_mutex m key) = O) /\
  (forall a, (forall key, valid_key m key -> a <> key_mutex m key) ->
     owned (__map2_init (Some m) w) a = owned w a).
Proof.
  unfold __map2_init.
  destruct (init_from_spec m (Z.to_nat (keys m)) 0 w) as (T & _ & O).
  change (Z.of_nat 0) with 0 in *.
  split.
  - intros key Hk. unfold valid_key in Hk.
    assert (Hin : In (Z.to_nat key) (seq 0 (Z.to_nat (keys m))))
      by (apply key_in_seq; lia).
    split.
    + rewrite T. apply in_or_app. right. unfold init_events.
      apply in_map_iff. exists (Z.to_nat key).
      split; [| exact Hin]. rewrite Z2Nat.id by lia. reflexivity.
    + apply owned_after_init. exact Hk.
  - intros a Ha. rewrite O.
    replace (existsb _ _) with false; [reflexivity|].
    symmetry. apply Bool.not_true_is_false. intros E.
    apply existsb_exists in E. destruct E as (k & Hin & E).
    apply in_seq in Hin. apply Z.eqb_eq in E.
    apply (Ha (Z.of_nat k)); [unfold valid_key; lia | exact E].
Qed.

Lemma init_resets_every_key_witness :
  owned (__map2_init (Some map_ex3) world_free) (key_mutex map_ex3 2) = O.
Proof.
  destruct (init_resets_every_key map_ex3 world_free) as (A & _).
  apply (A 2). unfold valid_key. simpl. lia.
Defined.

(** ** The keys are independent *)








(** X8. The mutex of a key is found [key] bytes after [mut], not [key]
    elements after it: for an array of elements of more than one byte, as
    [MAP2] declares one with [OS_MUT], the address used for a key from 1 on
    is not the address of the element of that index. *)
Theorem key_mutex_is_byte_offset m key sz :
  0 <= mut m -> 1 <= key -> 1 < sz -> mut m + key * sz < Int32.modulus ->
  key_mutex m key = mut m + key /\
  key_mutex m key <> mut m + key * sz /\
  mut m < key_mutex m key < mut m + key * sz.
Proof.
  intros Hm Hk Hsz Hend.
  assert (E : key_mutex m key = mut m + key).
  { unfold key_mutex, map2_ptr. apply to_uint32_id. nia. }
  rewrite E. nia.
Qed.

Lemma key_mutex_is_byte_offset_witness :
  key_mutex map_ex 1 = 8193 /\ key_mutex map_ex 1 <> 8192 + 1 * 12.
Proof.
  assert (H1 : 0 <= mut map_ex) by (vm_compute; discriminate).
  assert (H2 : 1 <= 1) by lia.
  assert (H3 : 1 < 12) by lia.
  assert (H4 : mut map_ex + 1 * 12 < Int32.modulus)
    by (vm_compute; reflexivity).
  destruct (key_mutex_is_byte_offset map_ex 1 12 H1 H2 H3 H4) as (A & B & _).
  split; [exact A | exact B].
Defined.

(** ** The failure block *)

Lemma take_readonly_owned m row column key dst tout w :
  valid_cell m row column -> valid_key m key ->
  is_tmo (wait_result m row column key tout MAP2_OP_READONLY w) = false ->
  forall a,
    owned (snd (__map2_take (Some m) row column key dst tout
                            MAP2_OP_READONLY w)) a = owned w a.
Proof.
  intros Hc Hk E a. rewrite (take_valid _ _ _ _ _ _ _ _ Hc Hk). cbv zeta.
  rewrite E. cbn [snd].
  apply (owned_drop_taken _ _ _ _ tout MAP2_OP_READONLY); auto.
  intros x. destruct (negb (dst =? NULL) && negb (_ =? NULL)); reflexivity.
Qed.

(** A call that returns [NULL] leaves the ownership of the mutexes and the
    memory as they were. *)
Lemma take_null_frame m row column key dst tout op w :
  fst (__map2_take m row column key dst tout op w) = NULL ->
  (forall a, owned (snd (__map2_take m row column key dst tout op w)) a
             = owned w a) /\
  mem (snd (__map2_take m row column key dst tout op w)) = mem w.
Proof.
  destruct m as [m|]; [| intros _; cbn; auto].
  destruct (bad_cell m row column) eqn:Hc.
  { unfold __map2_take. rewrite Hc. cbn. auto. }
  destruct (bad_key m key) eqn:Hk.
  { unfold __map2_take. rewrite Hc, Hk. cbn. auto. }
  apply bad_cell_false in Hc. apply bad_key_false in Hk.
  rewrite (take_valid _ _ _ _ _ _ _ _ Hc Hk). cbv zeta.
  destruct (is_tmo (wait_result m row column key tout op w)) eqn:E.
  - intros _. cbn [snd]. rewrite (wait_world_tmo _ _ _ _ _ _ _ E).
    split; [intros a|]; reflexivity.
  - destruct op; cbn [fst snd]; intros Hp.
    + replace (negb (dst =? NULL)) with false by (rewrite Hp; reflexivity).
      cbn [andb]. split.
      * intros a.
        apply (owned_drop_taken _ _ _ _ tout MAP2_OP_READONLY); auto.
      * rewrite mem_drop. apply mem_world_taken.
    + replace (cell_ptr m row column =? NULL) with true
        by (rewrite Hp; reflexivity).
      split.
      * intros a.
        apply (owned_drop_taken _ _ _ _ tout MAP2_OP_READWRITE); auto.
      * rewrite mem_drop. apply mem_world_taken.
Qed.



(** ** A write is seen by the next read *)

(** X10. A byte stored through the pointer that [map2_readwrite_try] hands
    to its block is the byte that a later read-only access to the same cell
    copies at the same offset of the destination; after the two accesses
    the calling task owns every mutex as at the start. *)
Theorem write_then_read m row column key dst0 dst tout1 tout2 j v w :
  valid_cell m row column -> valid_key m key ->
  wait_result m row column key tout1 MAP2_OP_READWRITE w <> OS_R_TMO ->
  cell_ptr m row column <> NULL ->
  let w1 := map2_readwrite_try (Some m) row column key dst0 tout1
                               (set_byte j v) w in
  wait_result m row column key tout2 MAP2_OP_READONLY w1 <> OS_R_TMO ->
  dst <> NULL ->
  0 <= j < Int32.to_uint32 (field_size m) ->
  let r := __map2_take (Some m) row column key dst tout2 MAP2_OP_READONLY w1 in
  fst r = dst /\
  mem (snd r) (dst + j) = v /\
  (forall a, owned (snd r) a = owned w a).
Proof.
  intros Hc Hk Hr1 Hs w1 Hr2 Hd Hj r.
  assert (E1 : is_tmo (wait_result m row column key tout1 MAP2_OP_READWRITE w)
               = false)
    by (destruct (wait_result m row column key tout1 MAP2_OP_READWRITE w);
        [contradiction | reflexivity | reflexivity]).
  assert (E2 : is_tmo (wait_result m row column key tout2 MAP2_OP_READONLY w1)
               = false)
    by (destruct (wait_result m row column key tout2 MAP2_OP_READONLY w1);
        [contradiction | reflexivity | reflexivity]).
  assert (Hw1 : w1 = __map2_drop (Some m) row column key
                       (set_byte j v (cell_ptr m row column)
                          (world_taken m row column key tout1
                                       MAP2_OP_READWRITE w))).
  { unfold w1, map2_readwrite_try, map2_readwrite_trycatch.
    rewrite (take_valid _ _ _ _ _ _ _ _ Hc Hk). cbv zeta. rewrite E1.
    replace (cell_ptr m row column =? NULL) with false
      by (unfold NULL in *; lia).
    cbn [negb]. reflexivity. }
  assert (M1 : mem w1 (cell_ptr m row column + j) = v).
  { rewrite Hw1, mem_drop. unfold set_byte, store_byte. cbn [mem].
    now rewrite Z.eqb_refl. }
  assert (O1 : forall a, owned w1 a = owned w a).
  { intros a. rewrite Hw1.
    apply (owned_drop_taken _ _ _ _ tout1 MAP2_OP_READWRITE); auto. }
  destruct (take_readonly_lemma m row column key dst tout2 w1 Hc Hk Hr2)
    as (R & C & _).
  fold r in R, C.
  split; [exact R | split].
  - rewrite (C Hd Hs j Hj). exact M1.
  - intros a. unfold r.
    rewrite (take_readonly_owned _ _ _ _ _ _ _ Hc Hk E2). apply O1.
Qed.

Lemma write_then_read_witness :
  mem (snd (__map2_take (Some map_ex) 0 1 0 buf_ex 100 MAP2_OP_READONLY
              (map2_readwrite_try (Some map_ex) 0 1 0 NULL 100
                                  (set_byte 2 Byte.x2a) world_free)))
      (buf_ex + 2)
  = Byte.x2a.
Proof.
  assert (Hc : valid_cell map_ex 0 1) by (unfold valid_cell; simpl; lia).
  assert (Hk : valid_key map_ex 0) by (unfold valid_key; simpl; lia).
  assert (H1 : wait_result map_ex 0 1 0 100 MAP2_OP_READWRITE world_free
               <> OS_R_TMO) by (vm_compute; discriminate).
  assert (H2 : cell_ptr map_ex 0 1 <> NULL) by (vm_compute; discriminate).
  assert (H3 : wait_result map_ex 0 1 0 100 MAP2_OP_READONLY
                 (map2_readwrite_try (Some map_ex) 0 1 0 NULL 100
                                     (set_byte 2 Byte.x2a) world_free)
               <> OS_R_TMO) by (vm_compute; discriminate).
  assert (H4 : buf_ex <> NULL) by (vm_compute; discriminate).
  assert (H5 : 0 <= 2 < Int32.to_uint32 (field_size map_ex))
    by (vm_compute; intuition discriminate).
  apply (write_then_read map_ex 0 1 0 NULL buf_ex 100 100 2 Byte.x2a
           world_free Hc Hk H1 H2 H3 H4 H5).
Defined.

(** ** [map2_unsafe_foreach] *)

Lemma nth_item_succ m sz i :
  nth_item m sz (Z.of_nat (S i)) = nth_item m sz (Z.of_nat i) + sz.
Proof. unfold nth_item. lia. Qed.

(** The loop started on the item [i] of [count] visits the items left, one
    after the other, and stops. *)
Lemma foreach_from_items m sz body (count : nat) :
  1 <= sz -> 0 < data m ->
  data m + Z.of_nat count * sz < Int32.modulus ->
  forall k i fuel w,
    (i + k = count)%nat -> (k < fuel)%nat ->
    foreach_from fuel (data m + Z.of_nat count * sz) sz
                 (nth_item m sz (Z.of_nat i)) body w
    = Some (run_body body (items_from m sz i k) w).
Proof.
  intros Hsz Hd Hend k.
  induction k as [|k IH]; intros i fuel w Hik Hf.
  - destruct fuel as [|fuel]; [lia|]. cbn [foreach_from].
    replace (nth_item m sz (Z.of_nat i) <? data m + Z.of_nat count * sz)
      with false by (unfold nth_item; nia).
    rewrite Bool.andb_false_r. reflexivity.
  - destruct fuel as [|fuel]; [lia|]. cbn [foreach_from].
    assert (B : 0 <= Z.of_nat i * sz /\
                (Z.of_nat i + 1) * sz <= Z.of_nat count * sz).
    { split; [nia|]. apply Z.mul_le_mono_nonneg_r; lia. }
    replace (negb (nth_item m sz (Z.of_nat i) =? NULL)
             && (nth_item m sz (Z.of_nat i)
                 <? data m + Z.of_nat count * sz))
      with true by (unfold nth_item, NULL; lia).
    replace (Int32.to_uint32 (nth_item m sz (Z.of_nat i) + sz))
      with (nth_item m sz (Z.of_nat (S i))).
    + rewrite (IH (S i) fuel) by lia. reflexivity.
    + rewrite nth_item_succ. symmetry. apply to_uint32_id.
      unfold nth_item. lia.
Qed.

Lemma grid_placed_count m :
  grid_placed m ->
  Z.of_nat (cell_count m) = rows m * columns m /\
  Int32.to_uint32 (data m + data_size m)
  = data m + Z.of_nat (cell_count m) * field_size m.
Proof.
  intros (Hg & (Hr & Hc) & Hds & Hd & Hend).
  assert (N : Z.of_nat (cell_count m) = rows m * columns m)
    by (unfold cell_count; rewrite Z2Nat.id; nia).
  split; [exact N|]. rewrite N, <- Hds. apply to_uint32_id.
  destruct Hg as [Hfs _]. rewrite Hds in *. nia.
Qed.

(** X11. On a map whose grid is the array [MAP2] declares (at least one row
    and one column, a size that is an [int], not at [NULL] and ending below
    the top of the address space), [map2_unsafe_foreach] with the type of
    the items ends, and runs its body on the [rows * columns] items, each
    once, in the order of the addresses: item [i] is at
    [data + i * field_size]. *)
Theorem foreach_visits_every_item m fuel body w :
  grid_placed m ->
  (cell_count m < fuel)%nat ->
  map2_unsafe_foreach fuel m (field_size m) body w
  = Some (run_body body (items_from m (field_size m) 0 (cell_count m)) w).
Proof.
  intros Hp Hf.
  destruct (grid_placed_count m Hp) as (N & S).
  destruct Hp as (Hg & _ & Hds & Hd & Hend).
  unfold map2_unsafe_foreach. rewrite S.
  replace (data m) with (nth_item m (field_size m) (Z.of_nat 0)) at 2
    by (unfold nth_item; cbn; lia).
  assert (Hfs : 1 <= field_size m) by apply Hg.
  assert (He : data m + Z.of_nat (cell_count m) * field_size m
               < Int32.modulus) by (rewrite N, <- Hds; exact Hend).
  apply foreach_from_items; [exact Hfs | exact Hd | exact He | lia | lia].
Qed.

Lemma foreach_visits_every_item_witness :
  map2_unsafe_foreach 9 map_ex (field_size map_ex) (set_byte 0 Byte.x07)
                      world_free
  = Some (run_body (set_byte 0 Byte.x07)
                   (items_from map_ex (field_size map_ex) 0 8) world_free).
Proof.
  assert (Hp : grid_placed map_ex).
  { unfold grid_placed, grid_fits. vm_compute. intuition discriminate. }
  assert (Hf : (cell_count map_ex < 9)%nat) by (vm_compute; lia).
  apply (foreach_visits_every_item map_ex 9 (set_byte 0 Byte.x07) world_free
           Hp Hf).
Defined.

(** What a body that stores one byte in each item leaves in the memory. *)
Lemma run_set_byte j v l : forall w,
  (forall a, mem (run_body (set_byte j v) l w) a =
             if existsb (fun p => a =? p + j) l then v else mem w a) /\
  (forall a, owned (run_body (set_byte j v) l w) a = owned w a) /\
  trace (run_body (set_byte j v) l w) = trace w.
Proof.
  induction l as [|p l IH]; intros w; [cbn; auto|].
  unfold run_body in *. cbn [fold_left].
  destruct (IH (set_byte j v p w)) as (M & O & T).
  split; [| split].
  - intros a. rewrite M. cbn [existsb].
    unfold set_byte, store_byte. cbn [mem].
    destruct (existsb (fun q => a =? q + j) l);
      [now rewrite Bool.orb_true_r|].
    rewrite Bool.orb_false_r. reflexivity.
  - intros a. rewrite O. reflexivity.
  - rewrite T. reflexivity.
Qed.

Lemma cell_is_item m row column :
  grid_placed m -> valid_cell m row column ->
  In (cell_ptr m row column)
     (items_from m (field_size m) 0 (cell_count m)).
Proof.
  intros Hp Hv.
  destruct (grid_placed_count m Hp) as (N & _).
  destruct Hp as (Hg & _ & Hds & Hd & Hend).
  destruct (cell_index_bounds m row column Hv) as (_ & B0 & B1).
  unfold items_from. apply in_map_iff.
  exists (Z.to_nat (column + columns m * row)). split.
  - rewrite Z2Nat.id by lia. unfold nth_item. symmetry.
    apply cell_ptr_exact; try assumption; lia.
  - apply in_seq. lia.
Qed.

(** X12. [map2_init] with a [map2_unsafe_foreach] whose body stores a value
    at one offset of each item leaves that value at that offset of every
    cell that [__map2_take] can reach, and every mutex of a valid key
    initialised and owned by nobody.  The loop itself makes no call to the
    kernel: the trace is the one of [__map2_init]. *)
Theorem init_foreach_sets_every_cell m fuel j v w :
  grid_placed m ->
  (cell_count m < fuel)%nat ->
  exists w',
    map2_init (Some m)
              (map2_unsafe_foreach fuel m (field_size m) (set_byte j v)) w
    = Some w' /\
    (forall row column, valid_cell m row column ->
       mem w' (cell_ptr m row column + j) = v) /\
    (forall key, valid_key m key -> owned w' (key_mutex m key) = O) /\
    trace w' = trace (__map2_init (Some m) w).
Proof.
  intros Hp Hf. unfold map2_init.
  rewrite (foreach_visits_every_item m fuel _ _ Hp Hf).
  eexists. split; [reflexivity|].
  destruct (run_set_byte j v (items_from m (field_size m) 0 (cell_count m))
                         (__map2_init (Some m) w)) as (M & O & T).
  split; [| split; [| exact T]].
  - intros row column Hv. rewrite M.
    replace (existsb _ _) with true; [reflexivity|].
    symmetry. apply existsb_exists. exists (cell_ptr m row column).
    split; [now apply cell_is_item | apply Z.eqb_refl].
  - intros key Hk. rewrite O. now apply owned_after_init.
Qed.

Lemma init_foreach_sets_every_cell_witness :
  exists w',
    map2_init (Some map_ex)
              (map2_unsafe_foreach 9 map_ex (field_size map_ex)
                                   (set_byte 4 Byte.x07)) world_free
    = Some w' /\
    mem w' (cell_ptr map_ex 3 1 + 4) = Byte.x07.
Proof.
  assert (Hp : grid_placed map_ex).
  { unfold grid_placed, grid_fits. vm_compute. intuition discriminate. }
  assert (Hf : (cell_count map_ex < 9)%nat) by (vm_compute; lia).
  destruct (init_foreach_sets_every_cell map_ex 9 4 Byte.x07 world_free
              Hp Hf) as (w' & E & C & _).
  exists w'. split; [exact E|].
  apply C. unfold valid_cell. simpl. lia.
Defined.

(** ** Cells do not overlap *)

Lemma cell_index_inj m r1 c1 r2 c2 :
  valid_cell m r1 c1 -> valid_cell m r2 c2 ->
  c1 + columns m * r1 = c2 + columns m * r2 -> r1 = r2 /\ c1 = c2.
Proof.
  unfold valid_cell. intros [_ H1] [_ H2] E.
  assert (R : r1 = r2) by nia.
  subst r2. lia.
Qed.

(** X13. On a grid whose size is an [int] and which lies in the address
    space, two different valid cells have no byte in common: a store made
    through the pointer to one cell, within the [field_size] bytes of that
    cell, changes no byte of another cell. *)
Theorem cells_do_not_overlap m r1 c1 r2 c2 a v w :
  grid_fits m -> 0 <= data m ->
  data m + rows m * columns m * field_size m <= Int32.modulus ->
  valid_cell m r1 c1 -> valid_cell m r2 c2 ->
  (r1, c1) <> (r2, c2) ->
  in_cell m r1 c1 a ->
  ~ in_cell m r2 c2 a /\
  (forall b, in_cell m r2 c2 b -> mem (store_byte a v w) b = mem w b).
Proof.
  intros Hg Hd Hend H1 H2 Hne Ha.
  unfold in_cell, in_range in *.
  rewrite (cell_ptr_exact m r1 c1 Hg H1 Hd Hend) in Ha.
  rewrite (cell_ptr_exact m r2 c2 Hg H2 Hd Hend).
  assert (Hfs : 1 <= field_size m) by apply Hg.
  set (n1 := c1 + columns m * r1) in *.
  set (n2 := c2 + columns m * r2) in *.
  assert (N : n1 <> n2).
  { intros E. destruct (cell_index_inj m r1 c1 r2 c2 H1 H2 E) as [-> ->].
    now apply Hne. }
  assert (D : ~ (data m + n2 * field_size m <= a
                 < data m + n2 * field_size m + field_size m)) by nia.
  split; [exact D|].
  intros b Hb. unfold store_byte. cbn [mem].
  destruct (Z.eqb_spec b a) as [->|]; [contradiction | reflexivity].
Qed.

Lemma cells_do_not_overlap_witness :
  mem (store_byte (cell_ptr map_ex 0 1 + 3) Byte.xff world_free)
      (cell_ptr map_ex 1 0 + 3)
  = mem world_free (cell_ptr map_ex 1 0 + 3).
Proof.
  assert (Hg : grid_fits map_ex)
    by (unfold grid_fits; vm_compute; intuition discriminate).
  assert (Hd : 0 <= data map_ex) by (vm_compute; discriminate).
  assert (He : data map_ex + rows map_ex * columns map_ex * field_size map_ex
               <= Int32.modulus) by (vm_compute; discriminate).
  assert (H1 : valid_cell map_ex 0 1) by (unfold valid_cell; simpl; lia).
  assert (H2 : valid_cell map_ex 1 0) by (unfold valid_cell; simpl; lia).
  assert (Hn : (0, 1) <> (1, 0)) by discriminate.
  assert (Ha : in_cell map_ex 0 1 (cell_ptr map_ex 0 1 + 3)).
  { unfold in_cell, in_range. change (field_size map_ex) with 8. lia. }
  destruct (cells_do_not_overlap map_ex 0 1 1 0 (cell_ptr map_ex 0 1 + 3)
              Byte.xff world_free Hg Hd He H1 H2 Hn Ha) as (_ & F).
  apply F. unfold in_cell, in_range. change (field_size map_ex) with 8. lia.
Defined.

(** ** What an access holds and what it writes *)

(** X14. Whatever the arguments and the outcome, after [__map2_take] the
    calling task owns one more level of the mutex of the key exactly when
    the mode is read-write and the result is not [NULL]; in every other
    case, and for every other mutex, the ownership is as before the call. *)
Theorem lock_held_iff_readwrite_success m row column key dst tout op w a :
  owned (snd (__map2_take (Some m) row column key dst tout op w)) a =
  if negb (is_readonly op)
     && negb (fst (__map2_take (Some m) row column key dst tout op w)
              =? NULL)
     && (a =? key_mutex m key)
  then S (owned w a) else owned w a.
Proof.
  destruct (Z.eqb_spec
              (fst (__map2_take (Some m) row column key dst tout op w)) NULL)
    as [Hn|Hok].
  - rewrite Bool.andb_false_r. cbn [andb negb].
    now apply take_null_frame.
  - destruct (take_success_inv _ _ _ _ _ _ _ _ Hok)
      as (m0 & Em & Hc & Hk & E).
    injection Em as <-.
    destruct op; cbn [is_readonly negb andb].
    + now apply take_readonly_owned.
    + rewrite (take_valid _ _ _ _ _ _ _ _ Hc Hk) in Hok |- *.
      cbv zeta in Hok |- *. rewrite E in Hok |- *. cbn [fst snd] in Hok |- *.
      replace (cell_ptr m row column =? NULL) with false
        by (unfold NULL in *; lia).
      rewrite (owned_world_taken _ _ _ _ _ _ _ _ E).
      destruct (Z.eqb_spec a (key_mutex m key)) as [->|]; reflexivity.
Qed.

(** X15. Whatever the arguments and the outcome, [__map2_take] in read-write
    mode changes no byte of the memory, and in read-only mode changes no byte
    outside the [field_size] bytes of the destination. *)
Theorem take_writes_only_destination m row column key dst tout op w a :
  op = MAP2_OP_READWRITE \/
  ~ in_range dst (Int32.to_uint32 (field_size m)) a ->
  mem (snd (__map2_take (Some m) row column key dst tout op w)) a = mem w a.
Proof.
  intros H. unfold __map2_take.
  destruct (bad_cell m row column); [reflexivity|].
  destruct (bad_key m key); [reflexivity|].
  destruct (os_mut_wait _ _ _) as [r w1] eqn:E.
  assert (M1 : mem w1 = mem w).
  { replace w1 with (snd (os_mut_wait (map2_ptr (mut m) key)
                            (adjust_tout tout)
                            (dbgW (Dbg_Wait row column key (adjust_tout tout)
                                            (op_code op)) w)))
      by (rewrite E; reflexivity).
    unfold os_mut_wait. cbn [snd]. destruct (is_tmo _); reflexivity. }
  destruct (is_tmo r); [cbn; now rewrite M1|].
  destruct op; cbn [is_readonly].
  - destruct H as [H|H]; [discriminate|].
    destruct (negb (dst =? NULL) && negb (_ =? NULL)); cbn [snd];
      rewrite Bool.orb_true_r, mem_drop.
    + unfold memcpy, dbgW, log. cbn [mem]. rewrite M1.
      now apply copy_bytes_outside.
    + cbn. now rewrite M1.
  - rewrite Bool.orb_false_r. destruct (_ =? NULL); cbn [snd].
    + rewrite mem_drop. cbn. now rewrite M1.
    + cbn. now rewrite M1.
Qed.

Lemma take_writes_only_destination_witness :
  mem (snd (__map2_take (Some map_ex) 1 0 1 buf_ex 100 MAP2_OP_READONLY
                        world_free)) (cell_ptr map_ex 1 0)
  = mem world_free (cell_ptr map_ex 1 0).
Proof.
  apply (take_writes_only_destination map_ex 1 0 1 buf_ex 100
           MAP2_OP_READONLY world_free).
  right. unfold in_range.
  change (Int32.to_uint32 (field_size map_ex)) with 8.
  change (cell_ptr map_ex 1 0) with 4112. unfold buf_ex. lia.
Defined.
